(** * web-scraping-project: email scraper and outgoing-link fetcher

    A shallow embedding of [email_scraper.py] and [linkdin.py].

    Python [str] values are [string]s, [set]s of strings are [gset string],
    [list(set(...))] is [elements] (a duplicate-free listing in an order the
    program does not control), dictionaries whose insertion order matters
    are association lists.  Library calls whose code is not part of the
    repository ([urljoin], [urlparse(...).netloc], [scrapy.Request], the
    page fetchers, the crawl that the reactor runs, the wall clock) are
    section variables; those that may raise inside a loop of the program
    return a [Result] or come with the set of inputs on which they raise. *)

From Stdlib Require Import Ascii String List Arith Lia ZArith.
From stdpp Require Import base decidable option list sets gmap strings.

Local Open Scope string_scope.
Set Warnings "-clear-no-such-hyp".

(** ** Python string methods used by the two programs *)

Module PyStr.

(** [s.startswith(p)] *)
Definition startswith (p s : string) : bool := String.prefix p s.

(** [sub in s] *)
Fixpoint contains (sub s : string) : bool :=
  String.prefix sub s ||
  match s with
  | EmptyString => false
  | String _ s' => contains sub s'
  end.

(** [s.replace(old, new)] for a non-empty [old]: occurrences are replaced
    from left to right, without overlap.  [skip] counts the characters of
    the occurrence being replaced that are still to be dropped. *)
Fixpoint replace_go (old new : string) (skip : nat) (s : string) : string :=
  match s with
  | EmptyString => EmptyString
  | String c s' =>
      match skip with
      | S k => replace_go old new k s'
      | O =>
          if String.prefix old s
          then new ++ replace_go old new (String.length old - 1) s'
          else String c (replace_go old new 0 s')
      end
  end.

Definition replace (old new s : string) : string := replace_go old new 0 s.

(** [s.split(sep)] for a non-empty [sep]; [cur] is the piece being read. *)
Fixpoint split_go (sep : string) (skip : nat) (cur s : string) : list string :=
  match s with
  | EmptyString => [cur]
  | String c s' =>
      match skip with
      | S k => split_go sep k cur s'
      | O =>
          if String.prefix sep s
          then cur :: split_go sep (String.length sep - 1) EmptyString s'
          else split_go sep 0 (cur ++ String c EmptyString) s'
      end
  end.

Definition split (sep s : string) : list string := split_go sep 0 EmptyString s.

(** [l[-1]] and [l[0]] on the result of a [split], which is never empty. *)
Definition last_piece (l : list string) : string := List.last l EmptyString.
Definition first_piece (l : list string) : string := List.hd EmptyString l.

(** [s.lower()] on ASCII letters. *)
Definition lower_ascii (c : ascii) : ascii :=
  let n := nat_of_ascii c in
  if ((65 <=? n)%nat && (n <=? 90)%nat) then ascii_of_nat (n + 32) else c.

Fixpoint lower (s : string) : string :=
  match s with
  | EmptyString => EmptyString
  | String c s' => String (lower_ascii c) (lower s')
  end.

(** [sep.join(l)] *)
Fixpoint join (sep : string) (l : list string) : string :=
  match l with
  | [] => EmptyString
  | [x] => x
  | x :: l' => x ++ sep ++ join sep l'
  end.

(** [any(p(x) for x in l)] *)
Definition any {A} (p : A -> bool) (l : list A) : bool := existsb p l.

(** The characters that [str.isspace] and the pattern [\s] accept, among
    the code points below 256: tab to carriage return, the four
    separators 28-31, the space, NEL and the no-break space. *)
Definition is_space (c : ascii) : bool :=
  let n := nat_of_ascii c in
  ((9 <=? n)%nat && (n <=? 13)%nat) || ((28 <=? n)%nat && (n <=? 32)%nat)
  || (n =? 133)%nat || (n =? 160)%nat.

(** [s.lstrip()], [s.rstrip()] and [s.strip()] *)
Fixpoint lstrip (s : string) : string :=
  match s with
  | EmptyString => EmptyString
  | String c s' => if is_space c then lstrip s' else s
  end.

Fixpoint rstrip (s : string) : string :=
  match s with
  | EmptyString => EmptyString
  | String c s' =>
      match rstrip s' with
      | EmptyString => if is_space c then EmptyString else String c EmptyString
      | r => String c r
      end
  end.

Definition strip (s : string) : string := lstrip (rstrip s).

(** No character of [s] satisfies [p]. *)
Definition free_of (p : ascii -> bool) (s : string) : Prop :=
  Forall (fun c => p c = false) (list_ascii_of_string s).

End PyStr.

(** ** The regular expression of [extract_emails]

    [[a-zA-Z0-9._%+-]+@[a-zA-Z0-9.-]+\.[a-zA-Z]{2,}] is a sequence of
    character classes, each taken a minimum number of times and then
    greedily, and of single characters.  The matcher below tries the
    alternatives in the order of a backtracking engine: the longest
    repetition first. *)

Module Re.

Definition in_range (lo hi : nat) (c : ascii) : bool :=
  ((lo <=? nat_of_ascii c)%nat && (nat_of_ascii c <=? hi)%nat).

Definition is_alpha (c : ascii) : bool :=
  in_range 97 122 c || in_range 65 90 c.

Definition is_digit (c : ascii) : bool := in_range 48 57 c.

Definition one_of (cs : string) (c : ascii) : bool :=
  existsb (Ascii.eqb c) (list_ascii_of_string cs).

(** [[a-zA-Z0-9._%+-]] *)
Definition local_class (c : ascii) : bool :=
  is_alpha c || is_digit c || one_of "._%+-" c.

(** [[a-zA-Z0-9.-]] *)
Definition domain_class (c : ascii) : bool :=
  is_alpha c || is_digit c || one_of ".-" c.

Inductive atom : Type :=
  | Rep (cls : ascii -> bool) (lo : nat)   (* cls{lo,}, greedy *)
  | Chr (a : ascii).                       (* one literal character *)

Definition email_pattern : list atom :=
  [ Rep local_class 1; Chr "@"; Rep domain_class 1; Chr "."; Rep is_alpha 2 ].

(** Length of the longest prefix of [s] made of characters of [cls]. *)
Fixpoint span (cls : ascii -> bool) (s : list ascii) : nat :=
  match s with
  | c :: s' => if cls c then S (span cls s') else 0
  | [] => 0
  end.

(** Try the continuation [k] after [n], [n-1], ..., [lo] characters. *)
Fixpoint backtrack (k : list ascii -> option nat) (lo n : nat)
    (s : list ascii) : option nat :=
  if decide (n < lo) then None
  else
    match k (drop n s) with
    | Some m => Some (n + m)
    | None =>
        match n with
        | O => None
        | S n' => backtrack k lo n' s
        end
    end.

(** [match_here p s]: the length of the match of [p] at the start of [s]
    that a backtracking engine finds, if there is one. *)
Fixpoint match_here (p : list atom) (s : list ascii) : option nat :=
  match p with
  | [] => Some 0
  | Chr a :: p' =>
      match s with
      | c :: s' => if decide (c = a) then S <$> match_here p' s' else None
      | [] => None
      end
  | Rep cls lo :: p' => backtrack (match_here p') lo (span cls s) s
  end.

(** [re.findall(p, s)]: scan from the left; after a match resume at its end,
    otherwise one character further.  The recursion is on a bound on the
    number of characters left. *)
Fixpoint findall_go (p : list atom) (bound : nat) (s : list ascii)
    : list (list ascii) :=
  match bound with
  | O => []
  | S bound' =>
      match s with
      | [] => []
      | _ :: s' =>
          match match_here p s with
          | Some (S n) => take (S n) s :: findall_go p bound' (drop (S n) s)
          | _ => findall_go p bound' s'
          end
      end
  end.

Definition findall (p : list atom) (s : string) : list string :=
  string_of_list_ascii <$>
    findall_go p (length (list_ascii_of_string s)) (list_ascii_of_string s).

(** The words a pattern denotes. *)
Fixpoint lang (p : list atom) (w : list ascii) : Prop :=
  match p with
  | [] => w = []
  | Chr a :: p' => exists w', w = a :: w' /\ lang p' w'
  | Rep cls lo :: p' =>
      exists w1 w2 : list ascii, w = (w1 ++ w2)%list /\ (lo <= length w1)%nat
                    /\ Forall (fun c => cls c = true) w1 /\ lang p' w2
  end.

Definition all_in (cls : ascii -> bool) (s : string) : Prop :=
  Forall (fun c => cls c = true) (list_ascii_of_string s).

(** *** The pattern in the words of the specification

    The characters a local part, a domain and a top-level label may hold
    are written out, independently of the classes of the matcher. *)
Definition letters : string :=
  "abcdefghijklmnopqrstuvwxyzABCDEFGHIJKLMNOPQRSTUVWXYZ".
Definition digits : string := "0123456789".
Definition local_chars : string := letters ++ digits ++ "._%+-".
Definition domain_chars : string := letters ++ digits ++ ".-".

(** Every character of [s] is one of [chars]. *)
Definition made_of (chars s : string) : Prop :=
  Forall (fun c => c ∈ list_ascii_of_string chars) (list_ascii_of_string s).

(** [local-part@domain.tld]: a local part of one or more of
    letters/digits/[._%+-], a domain of one or more of letters/digits/[.-],
    a top-level label of two or more letters. *)
Definition email_shape (e : string) : Prop :=
  exists local_part domain tld : string,
    e = local_part ++ "@" ++ domain ++ "." ++ tld
    /\ (1 <= String.length local_part)%nat /\ made_of local_chars local_part
    /\ (1 <= String.length domain)%nat /\ made_of domain_chars domain
    /\ (2 <= String.length tld)%nat /\ made_of letters tld.

(** The same for a word given by its characters. *)
Definition email_word (w : list ascii) : Prop :=
  email_shape (string_of_list_ascii w).

(** The matches of a scan of a text from left to right, without overlap:
    at the end of the text there is none; at a position where no word of
    the shape starts the scan moves on by one character; where one starts,
    the longest such word is a match and the scan resumes after it. *)
Inductive scanned : list ascii -> list (list ascii) -> Prop :=
  | scanned_end : scanned [] []
  | scanned_skip (c : ascii) (s : list ascii) (l : list (list ascii)) :
      (forall w r : list ascii, c :: s = (w ++ r)%list -> ~ email_word w) ->
      scanned s l ->
      scanned (c :: s) l
  | scanned_match (w r : list ascii) (l : list (list ascii)) :
      email_word w ->
      (forall w' r' : list ascii,
          (w ++ r)%list = (w' ++ r')%list -> email_word w' ->
          (length w' <= length w)%nat) ->
      scanned r l ->
      scanned (w ++ r)%list (w :: l).

(** [sub] occurs in [s]. *)
Definition occurs_in (sub s : string) : Prop :=
  exists before after : string, s = before ++ sub ++ after.

(** [re.split] for a pattern [[...]+] that is one character class taken
    one or more times: the text is cut at every maximal run of characters
    of the class.  [cur] is the piece being read, [None] inside a run. *)
Fixpoint split_runs_go (cls : ascii -> bool) (cur : option string) (s : string)
    : list string :=
  match s with
  | EmptyString => [default EmptyString cur]
  | String c s' =>
      if cls c then
        match cur with
        | Some piece => piece :: split_runs_go cls None s'
        | None => split_runs_go cls None s'
        end
      else split_runs_go cls (Some (default EmptyString cur ++ String c EmptyString)) s'
  end.

Definition split_runs (cls : ascii -> bool) (s : string) : list string :=
  split_runs_go cls (Some EmptyString) s.

(** [[,\s]] *)
Definition comma_or_space (c : ascii) : bool :=
  Ascii.eqb c "," || PyStr.is_space c.

End Re.

(** A computation that returns a value or raises an exception; the string
    is the exception's description. *)
Inductive Result (A : Type) : Type :=
  | Ok (a : A)
  | Raise (e : string).
Arguments Ok {A} a.
Arguments Raise {A} e.

(** ** email_scraper.py *)

Module EmailScraper.

(** [extract_emails(html_content)] *)
Definition extract_emails (html_content : string) : list string :=
  elements (list_to_set (Re.findall Re.email_pattern html_content) : gset string).

(** What a fetched page gives to the spider, for a page served as text:
    [response.url], [response.text] and
    [response.css('a::attr(href)').getall()]. *)
Record Response : Type := mkResponse {
  url : string;
  text : string;
  hrefs : list string
}.

(** The fields of [EnhancedEmailSpider] set by [__init__]. *)
Record Spider : Type := mkSpider {
  start_urls : list string;
  allowed_domains : list string;
  emails : gset string;
  visited_pages : gset string
}.

(** [start_url.split("//")[-1].split("/")[0]] *)
Definition domain_of (start_url : string) : string :=
  PyStr.first_piece (PyStr.split "/" (PyStr.last_piece (PyStr.split "//" start_url))).

(** [EnhancedEmailSpider.__init__] *)
Definition init (start_url : string) : Spider :=
  {| start_urls := [start_url];
     allowed_domains := [domain_of start_url];
     emails := ∅;
     visited_pages := ∅ |}.

(** [self.allowed_domains[0]]; [__init__] always stores one domain. *)
Definition allowed_domain (self : Spider) : string :=
  List.hd EmptyString (allowed_domains self).

(** [custom_settings['DEPTH_LIMIT']] *)
Definition DEPTH_LIMIT : nat := 3.

Definition KEYWORDS : list string := ["contact"; "about"; "write-for-us"; "support"].

(** [any(keyword in response.url.lower() for keyword in [...])] *)
Definition keyword_page (response : Response) : bool :=
  PyStr.any (fun keyword => PyStr.contains keyword (PyStr.lower (url response))) KEYWORDS.

(** [self.emails.update(extract_emails(response.text))] *)
Definition update_emails (self : Spider) (response : Response) : Spider :=
  {| start_urls := start_urls self;
     allowed_domains := allowed_domains self;
     emails := emails self ∪ list_to_set (extract_emails (text response));
     visited_pages := visited_pages self |}.

(** [self.visited_pages.add(response.url)] *)
Definition mark_visited (self : Spider) (response : Response) : Spider :=
  {| start_urls := start_urls self;
     allowed_domains := allowed_domains self;
     emails := emails self;
     visited_pages := visited_pages self ∪ {[ url response ]} |}.

Section Spider.

(** [response.urljoin]: the page URL and a reference give an absolute URL,
    or [ValueError] for a reference that cannot be parsed. *)
Variable urljoin : string -> string -> Result string.

(** [scrapy.Request(link, callback=self.parse)], given by the URL of the
    request built: the link with the characters that may not stand in a
    URL percent-encoded, or [ValueError] for a link without a scheme. *)
Variable Request : string -> Result string.

(** The link as the loop body of [parse] sees it after its first [if]. *)
Definition resolve (response : Response) (link : string) : Result string :=
  if PyStr.startswith "/" link then urljoin (url response) link else Ok link.

(** The condition under which [parse] builds a request for [link]. *)
Definition follows (self : Spider) (link : string) : bool :=
  PyStr.startswith "http" link
  && PyStr.contains (allowed_domain self) link
  && bool_decide (link ∉ visited_pages self).

(** The [for link in ...] loop of [parse]: the URLs of the requests yielded,
    in order, and the exception that ended the loop, if one was raised. *)
Fixpoint parse_links (self : Spider) (response : Response)
    (links : list string) : list string * option string :=
  match links with
  | [] => ([], None)
  | link :: rest =>
      match resolve response link with
      | Raise e => ([], Some e)
      | Ok link =>
          if follows self link then
            match Request link with
            | Raise e => ([], Some e)
            | Ok request =>
                let '(requests, raised) := parse_links self response rest in
                (request :: requests, raised)
            end
          else parse_links self response rest
      end
  end.

(** [EnhancedEmailSpider.parse]: the requests yielded and the spider once
    the generator has ended, at the end of its body or at an exception
    raised in the loop, which leaves the rest of the body undone. *)
Definition parse (self : Spider) (response : Response) : list string * Spider :=
  let self := mark_visited self response in
  let self := update_emails self response in
  let '(requests, raised) := parse_links self response (hrefs response) in
  let self :=
    match raised with
    | None => if keyword_page response then update_emails self response else self
    | Some _ => self
    end in
  (requests, self).

(** [parse] with its last three lines (the keyword-triggered scan) removed. *)
Definition parse_without_rescan (self : Spider) (response : Response)
    : list string * Spider :=
  let self := mark_visited self response in
  let self := update_emails self response in
  let '(requests, raised) := parse_links self response (hrefs response) in
  (requests, self).

(** The callback run on a sequence of responses, in the order they arrive:
    the requests yielded for each response, and the final spider. *)
Fixpoint parse_all (self : Spider) (responses : list Response)
    : list (list string) * Spider :=
  match responses with
  | [] => ([], self)
  | response :: rest =>
      let '(requests, self) := parse self response in
      let '(more, self) := parse_all self rest in
      (requests :: more, self)
  end.

(** *** The frontier

    The source hands the requests that [parse] yields to the crawling
    framework and sets ['DEPTH_LIMIT': 3] in [custom_settings]; the queue,
    its set of reserved URLs and the depth rule themselves are not code of
    the repository. *)

(** Modelled from the spec: a frontier entry, a URL and its discovery
    depth. *)
Definition FrontierEntry : Type := string * nat.

(** Modelled from the spec: the state of one crawl job, the entries queued
    in discovery order, the spider, the entries fetched so far, and the
    URLs reserved, those enqueued or dequeued so far. *)
Record Crawl : Type := mkCrawl {
  frontier : list FrontierEntry;
  spider : Spider;
  fetched : list FrontierEntry;
  reserved : gset string
}.

(** The fetcher: page content and anchors, or a failure. *)
Variable fetch : string -> option Response.

(** Modelled from the spec: the acceptance rule of the frontier for the
    requests yielded on a page of depth [depth], taken in order.  A request
    is accepted only if [depth + 1] does not exceed the limit and its URL is
    not reserved yet; it is then enqueued at [depth + 1] and reserved at
    once, at enqueue time. *)
Fixpoint accept_links (depth_limit depth : nat) (requests : list string)
    (reserved : gset string) : list FrontierEntry * gset string :=
  match requests with
  | [] => ([], reserved)
  | request :: rest =>
      if decide ((S depth <= depth_limit)%nat /\ request ∉ reserved) then
        let '(entries, reserved) :=
          accept_links depth_limit depth rest (reserved ∪ {[ request ]}) in
        ((request, S depth) :: entries, reserved)
      else accept_links depth_limit depth rest reserved
  end.

(** Modelled from the spec: one step of the crawl.  The head entry is
    dequeued and fetched; on success the page goes to [parse] (from the
    source), which decides the requests yielded, and the acceptance rule
    decides which of them are enqueued; on failure the URL is dropped. *)
Definition crawl_step (depth_limit : nat) (c : Crawl) : Crawl :=
  match frontier c with
  | [] => c
  | (u, depth) :: queue =>
      match fetch u with
      | None =>
          {| frontier := queue; spider := spider c;
             fetched := fetched c ++ [(u, depth)];
             reserved := reserved c |}
      | Some response =>
          let '(requests, self) := parse (spider c) response in
          let '(entries, reserved) :=
            accept_links depth_limit depth requests (reserved c) in
          {| frontier := queue ++ entries;
             spider := self;
             fetched := fetched c ++ [(u, depth)];
             reserved := reserved |}
      end
  end.

(** Modelled from the spec: a job starts with only the seed, enqueued at
    depth 0 and reserved. *)
Definition crawl_start (start_url : string) : Crawl :=
  {| frontier := [(start_url, 0)]; spider := init start_url; fetched := [];
     reserved := {[ start_url ]} |}.

(** Modelled from the spec: the crawl run for a number of steps; a step on
    an empty frontier changes nothing. *)
Fixpoint crawl_run (depth_limit steps : nat) (c : Crawl) : Crawl :=
  match steps with
  | O => c
  | S steps' => crawl_run depth_limit steps' (crawl_step depth_limit c)
  end.

End Spider.

(** Every entry, waiting or fetched, is within the depth limit. *)
Definition depth_bounded (depth_limit : nat) (c : Crawl) : Prop :=
  Forall (fun e : FrontierEntry => (e.2 <= depth_limit)%nat) (frontier c)
  /\ Forall (fun e : FrontierEntry => (e.2 <= depth_limit)%nat) (fetched c).

(** No URL is queued or fetched twice, and every URL queued or fetched is
    reserved. *)
Definition reservation (c : Crawl) : Prop :=
  NoDup ((fetched c).*1 ++ (frontier c).*1)
  /\ forall u : string, u ∈ ((fetched c).*1 ++ (frontier c).*1)%list -> u ∈ reserved c.

(** *** Scraping a batch of sites *)

(** What the browser does for one URL: the driver does not start, the
    driver starts and loading the page fails (a timeout, say), or the page
    loads. *)
Inductive Browser : Type :=
  | LaunchFails (e : string)
  | GetFails (e : string)
  | Loaded (page_source : string).

(** The state of the process: the wall clock, in hundredths of a second,
    the error log, and whether the reactor, which [CrawlerProcess.start]
    runs and which a process can run only once, has run. *)
Record World : Type := mkWorld {
  now : Z;
  log : list string;
  reactor_ran : bool
}.

Inductive TimeTaken : Type :=
  | Seconds (hundredths : Z)
  | NA.

(** One row of the result table. *)
Record Row : Type := mkRow {
  Website : string;
  Emails : string;
  Time_Taken : TimeTaken
}.

(** [normalize_urls(input_text)] *)
Definition normalize_urls (input_text : string) : list string :=
  PyStr.strip <$>
    filter (fun url => PyStr.strip url <> EmptyString)
      (Re.split_runs Re.comma_or_space input_text).

(** The uploaded file as [main] sees it: the extension of its name, and
    what reading it as CSV or as Excel and taking the first column without
    its missing values gives, or raises. *)
Record UploadedFile : Type := mkUploadedFile {
  ext : string;
  read_csv : Result (list string);
  read_excel : Result (list string)
}.

(** What [main] shows for one run of the script. *)
Inductive Screen : Type :=
  | Idle
  | Error (message : string)
  | Crash (e : string)
  | Scraped (urls : list string) (results : list Row).

(** The parameters of [collect_emails], all of them required. *)
Definition collect_emails_parameters : list string :=
  ["sender"; "item"; "response"; "spider"].

(** The arguments with which the handlers of [signals.spider_closed] are
    called: the dispatcher's [signal] and [sender], and the signal's own
    [spider] and [reason]; a handler gets those of them that it names. *)
Definition spider_closed_arguments : list string :=
  ["signal"; "sender"; "spider"; "reason"].

(** The call of a handler succeeds when each of its parameters gets a
    value. *)
Definition handler_called (parameters arguments : list string) : bool :=
  forallb (fun parameter => bool_decide (parameter ∈ arguments)) parameters.

(** The exception of a second [process.start()] in one process. *)
Definition ReactorNotRestartable : string := "ReactorNotRestartable".

(** The line the signal manager logs for a handler whose call failed; the
    name of the handler and the traceback that follow it are left out. *)
Definition handler_error : string := "Error caught on signal handler".

Section Batch.

Variable chrome : string -> Browser.
(** [process.crawl(EnhancedEmailSpider, start_url=url)] and
    [process.start()] in a process whose reactor has not run: the crawl
    runs until the spider closes, leaving [spider.emails], or an exception
    is raised before the reactor runs. *)
Variable crawl : string -> Result (gset string).
(** The wall-clock time one scrape of a URL takes. *)
Variable duration : string -> Z.

Definition logging_error (msg : string) (w : World) : World :=
  {| now := now w; log := log w ++ [msg]; reactor_ran := reactor_ran w |}.

Definition tick (d : Z) (w : World) : World :=
  {| now := (now w + d)%Z; log := log w; reactor_ran := reactor_ran w |}.

Definition reactor_run (w : World) : World :=
  {| now := now w; log := log w; reactor_ran := true |}.

(** [run_scrapy_for_website]: [emails] is returned as [collect_emails] left
    it.  When the spider closes, the handler is called with the arguments
    of the signal; a call that fails is logged by the signal manager and
    the crawl ends as usual. *)
Definition run_scrapy_for_website (url : string) (w : World)
    : Result (gset string) * World :=
  let emails : gset string := ∅ in
  if reactor_ran w then (Raise ReactorNotRestartable, w)
  else
    match crawl url with
    | Raise e => (Raise e, w)
    | Ok spider_emails =>
        let w := reactor_run w in
        if handler_called collect_emails_parameters spider_closed_arguments
        then (Ok (emails ∪ spider_emails), w)
        else (Ok emails, logging_error handler_error w)
    end.

(** [scrape_with_selenium]: the driver is created outside the [try], so a
    launch failure propagates; a failure after that is logged and gives
    the empty list. *)
Definition scrape_with_selenium (url : string) (w : World)
    : Result (list string) * World :=
  match chrome url with
  | LaunchFails e => (Raise e, w)
  | GetFails e =>
      (Ok [], logging_error ("Error scraping " ++ url ++ " with Selenium: " ++ e) w)
  | Loaded html_content => (Ok (extract_emails html_content), w)
  end.

(** [scrape_with_hybrid]; the clock moves on while the scraper works. *)
Definition scrape_with_hybrid (url : string) (use_selenium : bool) (w : World)
    : Result (list string) * World :=
  let '(r, w) :=
    if use_selenium then scrape_with_selenium url w
    else
      match run_scrapy_for_website url w with
      | (Ok emails, w) => (Ok (elements emails), w)
      | (Raise e, w) => (Raise e, w)
      end in
  (r, tick (duration url) w).

(** The body of the [for] loop of [scrape_multiple_websites]. *)
Definition scrape_one (url : string) (use_selenium : bool) (w : World)
    : Row * World :=
  let start_time := now w in
  match scrape_with_hybrid url use_selenium w with
  | (Ok emails, w) =>
      let elapsed_time := (now w - start_time)%Z in
      ({| Website := url;
          Emails := PyStr.join ", " emails;
          Time_Taken := Seconds elapsed_time |}, w)
  | (Raise e, w) =>
      ({| Website := url;
          Emails := "Error scraping website";
          Time_Taken := NA |},
       logging_error ("Failed to scrape " ++ url ++ ": " ++ e) w)
  end.

Fixpoint scrape_loop (urls : list string) (use_selenium : bool)
    (results : list Row) (w : World) : list Row * World :=
  match urls with
  | [] => (results, w)
  | url :: rest =>
      let '(result, w) := scrape_one url use_selenium w in
      scrape_loop rest use_selenium (results ++ [result]) w
  end.

(** [scrape_multiple_websites] *)
Definition scrape_multiple_websites (urls : list string) (use_selenium : bool)
    (w : World) : list Row * World :=
  scrape_loop urls use_selenium [] w.

(** The row recorded for a job, from what its scraper returned or raised. *)
Definition row_of (url : string) (r : Result (list string)) : Row :=
  match r with
  | Ok emails =>
      {| Website := url; Emails := PyStr.join ", " emails;
         Time_Taken := Seconds (duration url) |}
  | Raise _ =>
      {| Website := url; Emails := "Error scraping website"; Time_Taken := NA |}
  end.

(** What [scrape_with_selenium] returns or raises for a URL. *)
Definition browser_outcome (url : string) : Result (list string) :=
  match chrome url with
  | LaunchFails e => Raise e
  | GetFails _ => Ok []
  | Loaded html_content => Ok (extract_emails html_content)
  end.

(** The lines a job in the browser may write with [logging.error]: one for
    a driver that did not start, one for a page that did not load. *)
Definition browser_line (url line : string) : Prop :=
  exists e : string,
    (chrome url = LaunchFails e
     /\ line = "Failed to scrape " ++ url ++ ": " ++ e)
    \/ (chrome url = GetFails e
        /\ line = "Error scraping " ++ url ++ " with Selenium: " ++ e).

(** The lines a Scrapy job may write: the one of the handler whose call
    failed, or one for a run that raised, a second start of the reactor
    included. *)
Definition scrapy_line (url line : string) : Prop :=
  line = handler_error
  \/ exists e : string,
       (e = ReactorNotRestartable \/ crawl url = Raise e)
       /\ line = "Failed to scrape " ++ url ++ ": " ++ e.

Definition error_line (url : string) (use_selenium : bool) (line : string) : Prop :=
  if use_selenium then browser_line url line else scrapy_line url line.

(** The URLs [main] collects once the button is pressed: the first column
    of the file, then the text input through [normalize_urls]. *)
Definition collect_urls (file : option UploadedFile) (urls_input : string)
    : Result (option (list string)) :=
  let typed :=
    if decide (urls_input = EmptyString) then [] else normalize_urls urls_input in
  match file with
  | None => Ok (Some typed)
  | Some f =>
      if decide (ext f = ".csv") then
        match read_csv f with
        | Ok column => Ok (Some (column ++ typed)%list)
        | Raise e => Raise e
        end
      else if decide (ext f = ".xlsx") then
        match read_excel f with
        | Ok column => Ok (Some (column ++ typed)%list)
        | Raise e => Raise e
        end
      else Ok None
  end.

(** [main] of the email scraper. *)
Definition main (file : option UploadedFile) (urls_input : string)
    (use_selenium start_button : bool) (w : World) : Screen :=
  if start_button then
    match collect_urls file urls_input with
    | Raise e => Crash e
    | Ok None => Error "Unsupported file type!"
    | Ok (Some []) => Error "Please provide at least one valid URL."
    | Ok (Some urls) =>
        Scraped urls (scrape_multiple_websites urls use_selenium w).1
    end
  else Idle.

End Batch.

End EmailScraper.

(** ** linkdin.py *)

Module Linkdin.

Definition EXCLUDED_WEBSITES : list string :=
  [ "facebook.com"; "instagram.com"; "twitter.com"; "youtube.com"; "linkedin.com";
    "forbes.com"; "amazon.com"; "pinterest.com"; "imdb.com"; "indeed.com"; "moz.com";
    "quora.com"; "semrush.com"; "google.com"; "google.org"; "bbc.co.uk"; ".gov" ].

Definition EXCLUDED_PATTERNS : list string :=
  [ "#"; "/contact"; "/privacy"; "/terms" ].

(** [netloc.replace('www.', '')] *)
Definition without_www (netloc : string) : string :=
  PyStr.replace "www." "" netloc.

(** The spec's reading of the same step: a leading ['www.'] is stripped. *)
Definition strip_leading_www (netloc : string) : string :=
  if PyStr.startswith "www." netloc
  then String.substring 4 (String.length netloc - 4) netloc
  else netloc.

(** [f"https://{domain}/"] *)
Definition entry_of (domain : string) : string := "https://" ++ domain ++ "/".

(** The condition of the [if] in the loop of [extract_links_from_page];
    a string is true when it is not empty. *)
Definition is_outgoing (main_domain domain full_url : string) : bool :=
  negb (String.eqb domain EmptyString)
  && negb (PyStr.contains main_domain domain)
  && negb (PyStr.any (fun excluded => PyStr.contains excluded domain) EXCLUDED_WEBSITES)
  && negb (PyStr.any (fun pattern => PyStr.contains pattern full_url) EXCLUDED_PATTERNS).

Section Extract.

(** [urllib.parse.urljoin] and [urlparse(u).netloc], where they return. *)
Variable urljoin : string -> string -> string.
Variable netloc : string -> string.
(** [malformed url link]: for this anchor [urljoin(url, link)], or
    [urlparse] of its result, raises [ValueError] instead of returning, as
    for a link with an unbalanced bracket in its host. *)
Variable malformed : string -> string -> bool.
(** The part of [extract_links_from_page] before the loop: the [href]s of
    the anchors of the rendered page, or the exception raised on the way
    (by the browser, the selector or [urlparse(url)]). *)
Variable anchor_tags_of : string -> Result (list string).

(** The [for link in anchor_tags] loop; an exception raised in it is caught
    by the [except] clause, which ends the loop with the links gathered so
    far. *)
Fixpoint collect_links (url main_domain : string) (anchor_tags : list string)
    (outgoing_links : gset string) : gset string :=
  match anchor_tags with
  | [] => outgoing_links
  | link :: rest =>
      if malformed url link then outgoing_links
      else
        let full_url := urljoin url link in
        let domain := without_www (netloc full_url) in
        if is_outgoing main_domain domain full_url
        then collect_links url main_domain rest (outgoing_links ∪ {[ entry_of domain ]})
        else collect_links url main_domain rest outgoing_links
  end.

(** The anchors that the loop gets to: those before the first one at
    which an exception is raised. *)
Fixpoint anchors_read (url : string) (anchor_tags : list string) : list string :=
  match anchor_tags with
  | [] => []
  | link :: rest =>
      if malformed url link then [] else link :: anchors_read url rest
  end.

(** [extract_links_from_page]; an exception before the loop leaves the set
    empty. *)
Definition extract_links_from_page (url : string) : list string :=
  match anchor_tags_of url with
  | Raise _ => elements (∅ : gset string)
  | Ok anchor_tags =>
      let main_domain := without_www (netloc url) in
      elements (collect_links url main_domain anchor_tags ∅)
  end.

End Extract.

(** The text input of [main]:
    [[url.strip() for url in urls_input.replace(',', '\n').split('\n')
      if url.strip()]], guarded by [if urls_input.strip()]. *)
Definition newline : string := String (ascii_of_nat 10) EmptyString.

(** The characters at which that text is cut: a comma or a line feed. *)
Definition comma_or_newline (c : ascii) : bool :=
  Ascii.eqb c "," || Ascii.eqb c (ascii_of_nat 10).

Definition typed_urls (urls_input : string) : list string :=
  if decide (PyStr.strip urls_input = EmptyString) then []
  else
    PyStr.strip <$>
      filter (fun url => PyStr.strip url <> EmptyString)
        (PyStr.split newline (PyStr.replace "," newline urls_input)).

(** *** The thread pool *)

(** A dictionary that keeps insertion order. *)
Definition Dict : Type := list (string * list string).

(** [d[k] = v]: a key already present keeps its place. *)
Fixpoint dict_set (k : string) (v : list string) (d : Dict) : Dict :=
  match d with
  | [] => [(k, v)]
  | (k', v') :: d' =>
      if decide (k' = k) then (k, v) :: d' else (k', v') :: dict_set k v d'
  end.

Section Pool.

(** What one submitted call returns or raises. *)
Variable job : string -> Result (list string).

(** The futures are numbered in submission order.  [schedule] lists them in
    the order in which the workers complete them; the pool records each
    outcome in its future. *)
Definition run_pool (urls : list string) (schedule : list nat)
    : gmap nat (Result (list string)) :=
  foldl (fun done i =>
           match urls !! i with
           | Some url => <[ i := job url ]> done
           | None => done
           end) ∅ schedule.

(** The loop [for future in future_to_url]: futures are visited in
    submission order, [future.result()] waits for the outcome ([None] when
    the future is never completed). *)
Fixpoint gather (done : gmap nat (Result (list string))) (i : nat)
    (urls : list string) (all_outgoing_links : Dict) : option Dict :=
  match urls with
  | [] => Some all_outgoing_links
  | url :: rest =>
      match done !! i with
      | None => None
      | Some (Ok links) => gather done (S i) rest (dict_set url links all_outgoing_links)
      | Some (Raise _) => gather done (S i) rest all_outgoing_links
      end
  end.

(** [process_urls_concurrently] *)
Definition process_urls_concurrently (urls : list string) (schedule : list nat)
    : option Dict :=
  gather (run_pool urls schedule) 0 urls [].

(** The dictionary built from the outcomes of the jobs taken in the order
    of [urls]. *)
Fixpoint assemble (urls : list string) (all_outgoing_links : Dict) : Dict :=
  match urls with
  | [] => all_outgoing_links
  | url :: rest =>
      match job url with
      | Ok links => assemble rest (dict_set url links all_outgoing_links)
      | Raise _ => assemble rest all_outgoing_links
      end
  end.

(** [list(set(urls))] in [main]: some listing without duplicates of the
    elements of [urls]; the language fixes no order. *)
Definition set_listing (urls l : list string) : Prop :=
  NoDup l ∧ ∀ x, x ∈ l ↔ x ∈ urls.

(** The result dictionary of [main] for the seeds [urls]. *)
Definition main_results (urls : list string) (schedule : list nat)
    (results : Dict) : Prop :=
  ∃ l, set_listing urls l ∧ process_urls_concurrently l schedule = Some results.

End Pool.

(** What [main] of the link fetcher shows. *)
Inductive Screen : Type :=
  | PleaseUpload                 (* 'Please upload a file or enter URLs.' *)
  | ProvideUrl                   (* 'Please provide at least one URL ...' *)
  | Complete (results : Dict)    (* 'Processing complete!' and the results *)
  | NoLinksFound.                (* 'No outgoing links found.' *)

(** The URLs [main] gathers before removing duplicates: the first column of
    the uploaded file, unless reading it raised (the error is shown and the
    run goes on), then the URLs typed. *)
Definition gathered_urls (uploaded_file : option (Result (list string)))
    (urls_input : string) : list string :=
  (match uploaded_file with
   | Some (Ok column) => column
   | _ => []
   end ++ typed_urls urls_input)%list.

Section Main.

Variable urljoin : string -> string -> string.
Variable netloc : string -> string.
Variable malformed : string -> string -> bool.
Variable anchor_tags_of : string -> Result (list string).

(** [main] from [if submit_button:] on, for the list [urls] that
    [list(set(urls))] gave; [None] when a future is never completed. *)
Definition main (urls : list string) (schedule : list nat) (submit_button : bool)
    : option Screen :=
  if submit_button then
    match urls with
    | [] => Some ProvideUrl
    | _ =>
        match process_urls_concurrently
                (fun url =>
                   Ok (extract_links_from_page urljoin netloc malformed
                         anchor_tags_of url))
                urls schedule with
        | None => None
        | Some [] => Some NoLinksFound
        | Some results => Some (Complete results)
        end
    end
  else Some PleaseUpload.

End Main.

(** The rows that [save_to_csv] and [save_to_excel] write: one per base URL
    and outgoing link, in the order of the dictionary. *)
Fixpoint link_rows (base_url : string) (links : list string)
    : list (string * string) :=
  match links with
  | [] => []
  | link :: rest => (base_url, link) :: link_rows base_url rest
  end.

Fixpoint export_rows (results : Dict) : list (string * string) :=
  match results with
  | [] => []
  | (base_url, links) :: rest => (link_rows base_url links ++ export_rows rest)%list
  end.

End Linkdin.

(** ** Sample inputs *)

Module Sample.

(** [scheme://host] of an absolute URL. *)
Definition origin (base : string) : string :=
  PyStr.first_piece (PyStr.split "//" base) ++ "//" ++ EmailScraper.domain_of base.

(** [urljoin] on the two shapes used below: an absolute [http] URL is
    returned as it is, a path starting with one ['/'] replaces the path of
    the base. *)
Definition urljoin (base link : string) : string :=
  if PyStr.startswith "http" link then link else origin base ++ link.

(** [response.urljoin] on the same shapes; a reference with a bracket left
    open in it is refused. *)
Definition response_urljoin (base link : string) : Result string :=
  if PyStr.contains "[" link then Raise "Invalid IPv6 URL"
  else Ok (urljoin base link).

(** [scrapy.Request] on links in which only spaces need encoding. *)
Definition Request (link : string) : Result string :=
  if PyStr.contains "://" link then Ok (PyStr.replace " " "%20" link)
  else Raise "Missing scheme in request url".

(** [netloc] of [scheme://host/path]. *)
Definition netloc (u : string) : string := EmailScraper.domain_of u.

(** The references that [urljoin] and [urlparse] refuse, among those used
    below: the ones with a bracket left open. *)
Definition malformed (base link : string) : bool := PyStr.contains "[" link.

(** The same, with the empty location that [urlparse] gives for a URL
    without ['//']. *)
Definition netloc_of_url (u : string) : string :=
  if PyStr.contains "//" u then EmailScraper.domain_of u else EmptyString.

(** Three pages: the seed links to B, B links to C. *)
Definition seed : string := "https://example.com/".
Definition page_B : string := "https://example.com/b".
Definition page_C : string := "https://example.com/c".

Definition fetch (u : string) : option EmailScraper.Response :=
  if decide (u = seed) then
    Some (EmailScraper.mkResponse seed "Contact: info@example.com and SALES@Example.com" ["/b"])
  else if decide (u = page_B) then
    Some (EmailScraper.mkResponse page_B "" ["/c"])
  else if decide (u = page_C) then
    Some (EmailScraper.mkResponse page_C "" [])
  else None.

(** A page with two anchors to the same target, and a second page with
    an anchor to that target too. *)
Definition first_page : EmailScraper.Response :=
  EmailScraper.mkResponse seed "" ["/c"; "/c"; "/b"].
Definition second_page : EmailScraper.Response :=
  EmailScraper.mkResponse page_B "" ["/c"].

(** A page with a link to a subdomain and a relative link, and a page
    with a link to another site that names the seed's domain in its
    query. *)
Definition home_page : EmailScraper.Response :=
  EmailScraper.mkResponse seed "" ["https://sub.example.com/page"; "about.html"].
Definition referral_page : EmailScraper.Response :=
  EmailScraper.mkResponse seed "" ["https://other.org/?from=example.com"].

(** A page whose URL holds an encoded space, with a link to itself written
    with the space. *)
Definition spaced_page : EmailScraper.Response :=
  EmailScraper.mkResponse "https://example.com/a%20b" "" ["/a b"].

(** A page with a link that has no scheme between two that have one, and a
    page with a reference that cannot be resolved. *)
Definition schemeless_page : EmailScraper.Response :=
  EmailScraper.mkResponse "https://example.com/contact" "sales@example.com"
    ["/b"; "http-example.com"; "/c"].
Definition bracket_page : EmailScraper.Response :=
  EmailScraper.mkResponse seed "" ["/b"; "//[example.com"; "/c"].

(** A batch of three sites: the browser does not start for the first,
    times out on the second and loads the third. *)
Definition chrome (u : string) : EmailScraper.Browser :=
  if decide (u = "https://a.example/") then
    EmailScraper.LaunchFails "session not created"
  else if decide (u = "https://b.example/") then
    EmailScraper.GetFails "timeout: page load"
  else EmailScraper.Loaded "write to info@c.example".

(** Every crawl ends with one address in [spider.emails]. *)
Definition crawl (u : string) : Result (gset string) := Ok {[ "info@example.com" ]}.

Definition batch : list string :=
  ["https://a.example/"; "https://b.example/"; "https://c.example/"].

Definition midnight : EmailScraper.World := EmailScraper.mkWorld 0 [] false.

(** Pages for the link fetcher. *)
Definition site : string := "https://site.org/".

Definition anchor_tags_of (u : string) : Result (list string) :=
  if decide (u = site) then Ok ["https://shop.www.foo.com/deals"]
  else if decide (u = "https://news.org/") then Ok ["http://awww.gov/"]
  else if decide (u = seed) then
    Ok ["/about"; "https://twitter.com/example"; "https://partner.org/page#top"]
  else if decide (u = "https://blog.net/") then
    Ok ["https://m.facebook.com/x"; "https://blog.net.mirror.io/"; "https://partner.org/page"]
  else if decide (u = "https://links.org/") then
    Ok ["https://first.org/a"; "http://[second.org/"; "https://third.org/"]
  else Raise "net::ERR_NAME_NOT_RESOLVED".

End Sample.

(** * Properties *)

(** ** Strings and lists of characters *)

#[local] Arguments String.append !_ _ : simpl nomatch.

Section StringFacts.

Lemma string_of_list_ascii_app (a b : list ascii) :
  string_of_list_ascii (a ++ b)%list = string_of_list_ascii a ++ string_of_list_ascii b.
Proof. induction a as [|c a IH]; simpl; [done|]. by rewrite IH. Qed.

Lemma list_ascii_of_string_app (a b : string) :
  list_ascii_of_string (a ++ b) = (list_ascii_of_string a ++ list_ascii_of_string b)%list.
Proof. induction a as [|c a IH]; simpl; [done|]. by rewrite IH. Qed.

Lemma length_list_ascii_of_string (s : string) :
  length (list_ascii_of_string s) = String.length s.
Proof. induction s as [|c s IH]; simpl; [done|]. by rewrite IH. Qed.

Lemma string_app_nil_r (s : string) : s ++ "" = s.
Proof. induction s as [|c s IH]; simpl; congruence. Qed.

Lemma string_app_assoc (a b c : string) : (a ++ b) ++ c = a ++ b ++ c.
Proof. induction a as [|x a IH]; simpl; congruence. Qed.

Lemma prefix_app (p s : string) : String.prefix p (p ++ s) = true.
Proof.
  induction p as [|c p IH]; simpl; [by destruct s|].
  destruct (ascii_dec c c); [done|congruence].
Qed.

Lemma prefix_inv (p s : string) :
  String.prefix p s = true -> exists rest, s = p ++ rest.
Proof.
  revert s. induction p as [|c p IH]; intros s H; [by exists s|].
  destruct s as [|d s]; simpl in H; [done|].
  destruct (ascii_dec c d) as [-> |]; [|done].
  destruct (IH _ H) as [rest ->]. by exists rest.
Qed.

Lemma contains_eq (sub s : string) :
  PyStr.contains sub s =
  String.prefix sub s
  || match s with EmptyString => false | String _ s' => PyStr.contains sub s' end.
Proof. by destruct s. Qed.

Lemma contains_prefix (sub s : string) :
  String.prefix sub s = true -> PyStr.contains sub s = true.
Proof. intros H. rewrite contains_eq, H. done. Qed.

Lemma contains_app (sub before after : string) :
  PyStr.contains sub (before ++ sub ++ after) = true.
Proof.
  induction before as [|c before IH]; simpl.
  - apply contains_prefix, prefix_app.
  - rewrite IH. by rewrite orb_true_r.
Qed.

Lemma contains_refl (s : string) : PyStr.contains s s = true.
Proof.
  pose proof (contains_app s "" "") as H.
  change ("" ++ s ++ "") with (s ++ "") in H.
  by rewrite string_app_nil_r in H.
Qed.

Lemma contains_inv (sub s : string) :
  PyStr.contains sub s = true -> Re.occurs_in sub s.
Proof.
  induction s as [|c s IH]; rewrite contains_eq; intros H.
  - rewrite orb_false_r in H. destruct (prefix_inv _ _ H) as [rest ->].
    by exists "", rest.
  - apply orb_true_iff in H as [H|H].
    + destruct (prefix_inv _ _ H) as [rest E]. exists "", rest. by rewrite E.
    + destruct (IH H) as (b & a & ->). by exists (String c b), a.
Qed.

End StringFacts.

(** ** The string functions on small inputs *)

Example split_examples :
  PyStr.split "//" "https://example.com/a//b" = ["https:"; "example.com/a"; "b"]
  /\ PyStr.split "//" "a///b" = ["a"; "/b"]
  /\ PyStr.split "/" "example.com" = ["example.com"]
  /\ EmailScraper.domain_of "https://www.example.com/path?q=1" = "www.example.com"
  /\ EmailScraper.domain_of "example.com" = "example.com".
Proof. repeat split; reflexivity. Qed.

Example replace_examples :
  PyStr.replace "www." "" "www.example.com" = "example.com"
  /\ PyStr.replace "www." "" "www.awww.b.com" = "ab.com"
  /\ PyStr.replace "www." "" "wwww.b.com" = "wb.com"
  /\ PyStr.replace "www." "" "example.com" = "example.com".
Proof. repeat split; reflexivity. Qed.

Example contains_lower_join_examples :
  PyStr.contains "about" (PyStr.lower "https://x.org/About-Us") = true
  /\ PyStr.contains "" "abc" = true
  /\ PyStr.contains "abd" "abc" = false
  /\ PyStr.join ", " ["a"; "b"; "c"] = "a, b, c"
  /\ PyStr.join ", " [] = "".
Proof. repeat split; reflexivity. Qed.

Example findall_examples :
  Re.findall Re.email_pattern "Contact: info@example.com and SALES@Example.com"
  = ["info@example.com"; "SALES@Example.com"]
  /\ Re.findall Re.email_pattern "x@y.z a@b.c.de1 a.b@c..d-e.fgh. @q.rs t@.uv"
     = ["a@b.c.de"; "a.b@c..d-e.fgh"]
  /\ Re.findall Re.email_pattern "a@b.com a@b.com A@b.com"
     = ["a@b.com"; "a@b.com"; "A@b.com"].
Proof. repeat split; vm_compute; reflexivity. Qed.

(** ** The matcher against the language of its pattern *)

Section Regex.

Import Re.
Local Open Scope list_scope.

Lemma span_le_length cls (s : list ascii) : span cls s <= length s.
Proof. induction s as [|c s IH]; simpl; [lia|]. destruct (cls c); simpl; lia. Qed.

Lemma span_take cls (s : list ascii) m :
  m <= span cls s -> Forall (fun c => cls c = true) (take m s).
Proof.
  revert m. induction s as [|c s IH]; intros m Hm; simpl in *.
  - destruct m; constructor.
  - destruct m as [|m]; [constructor|]. destruct (cls c) eqn:E; [|lia].
    simpl. constructor; [done|]. apply IH. lia.
Qed.

Lemma span_app cls (w rest : list ascii) :
  Forall (fun c => cls c = true) w -> length w <= span cls (w ++ rest).
Proof.
  induction 1 as [|c w Hc _ IH]; simpl; [lia|]. rewrite Hc. lia.
Qed.

Lemma backtrack_sound k lo n (s : list ascii) r :
  backtrack k lo n s = Some r ->
  exists m r', lo <= m /\ m <= n /\ k (drop m s) = Some r' /\ r = m + r'.
Proof.
  induction n as [|n IH]; simpl; intros H.
  - destruct (decide (0 < lo)); [done|].
    destruct (k (drop 0 s)) as [r'|] eqn:E; [|done].
    exists 0, r'. repeat split; [lia|lia|done|by injection H as <-].
  - destruct (decide (S n < lo)); [done|].
    destruct (k (drop (S n) s)) as [r'|] eqn:E.
    + exists (S n), r'. repeat split; [lia|lia|done|by injection H as <-].
    + destruct (IH H) as (m & r' & ? & ? & ? & ?).
      exists m, r'. repeat split; [done|lia|done|done].
Qed.

Lemma backtrack_complete k lo n (s : list ascii) m :
  lo <= m -> m <= n -> is_Some (k (drop m s)) -> is_Some (backtrack k lo n s).
Proof.
  intros Hlo. induction n as [|n IH]; intros Hn Hk; simpl.
  - assert (m = 0) as -> by lia.
    destruct (decide (0 < lo)); [lia|]. destruct Hk as [r ->]. by eexists.
  - destruct (decide (S n < lo)); [lia|].
    destruct (k (drop (S n) s)) as [r'|] eqn:E; [by eexists|].
    destruct (decide (m = S n)) as [-> |].
    + rewrite E in Hk. by destruct Hk.
    + apply IH; [lia|done].
Qed.

Lemma match_here_sound p (s : list ascii) n :
  match_here p s = Some n -> n <= length s /\ lang p (take n s).
Proof.
  revert s n. induction p as [|[cls lo|a] p IH]; intros s n H; simpl in H.
  - injection H as <-. split; [lia|]. by rewrite take_0.
  - apply backtrack_sound in H as (m & r' & Hlo & Hm & Hk & ->).
    destruct (IH _ _ Hk) as [Hlen Hlang].
    pose proof (span_le_length cls s). rewrite length_drop in Hlen.
    split; [lia|]. simpl. exists (take m s), (take r' (drop m s)).
    split; [by rewrite take_take_drop|].
    split; [rewrite length_take; lia|].
    split; [by apply span_take|done].
  - destruct s as [|c s]; [done|]. destruct (decide (c = a)) as [-> |]; [|done].
    destruct (match_here p s) as [r|] eqn:E; [|done]. injection H as <-.
    destruct (IH _ _ E) as [Hlen Hlang]. simpl. split; [lia|].
    by exists (take r s).
Qed.

Lemma match_here_complete p (w rest : list ascii) :
  lang p w -> is_Some (match_here p (w ++ rest)).
Proof.
  revert w. induction p as [|[cls lo|a] p IH]; intros w H; simpl in *.
  - by eexists.
  - destruct H as (w1 & w2 & -> & Hlo & Hcls & Hrest).
    rewrite <- (assoc_L (++)).
    apply (backtrack_complete _ _ _ _ (length w1)); [done|by apply span_app|].
    rewrite drop_app_length. by apply IH.
  - destruct H as (w' & -> & Hrest). simpl.
    destruct (decide (a = a)); [|done].
    destruct (IH _ Hrest) as [r ->]. by eexists.
Qed.

(** Every word of the scan is a piece of the text and a word of the
    pattern. *)
Lemma findall_go_sound p bound (s x : list ascii) :
  x ∈ findall_go p bound s ->
  exists before after, s = before ++ x ++ after /\ lang p x.
Proof.
  revert s. induction bound as [|bound IH]; intros s Hx; simpl in Hx.
  - by apply elem_of_nil in Hx.
  - destruct s as [|c s]; [by apply elem_of_nil in Hx|].
    destruct (match_here p (c :: s)) as [[|n]|] eqn:E.
    + destruct (IH _ Hx) as (b & a & -> & ?). by exists (c :: b), a.
    + apply elem_of_cons in Hx as [-> |Hx].
      * destruct (match_here_sound _ _ _ E) as [_ Hlang].
        exists [], (drop (S n) (c :: s)). split; [|done].
        simpl. by rewrite take_drop.
      * destruct (IH _ Hx) as (b & a & Hs & ?).
        exists (take (S n) (c :: s) ++ b), a. split; [|done].
        rewrite <- (assoc_L (++)), <- Hs. by rewrite take_drop.
    + destruct (IH _ Hx) as (b & a & -> & ?). by exists (c :: b), a.
Qed.

(** A text that holds a word of the pattern gives at least one match. *)
Lemma findall_go_complete p bound (s : list ascii) :
  ~ lang p [] ->
  length s <= bound ->
  (exists before w after, s = before ++ w ++ after /\ lang p w) ->
  findall_go p bound s <> [].
Proof.
  intros Hne. revert s. induction bound as [|bound IH]; intros s Hb (b & w & a & -> & Hw).
  - destruct b, w; simpl in *; try lia. done.
  - destruct (b ++ w ++ a) as [|c s] eqn:Es.
    { destruct b, w; simpl in *; try done. }
    simpl. destruct (match_here p (c :: s)) as [[|n]|] eqn:E.
    + destruct (match_here_sound _ _ _ E) as [_ Hl]. by rewrite take_0 in Hl.
    + done.
    + destruct b as [|c' b].
      * simpl in Es. rewrite <- Es in E.
        destruct (match_here_complete p w a Hw) as [r Hr]. congruence.
      * simpl in Es. injection Es as -> <-. apply IH; [simpl in Hb; lia|].
        by exists b, w, a.
Qed.

(** The bound of the scan is large enough: a larger one gives the same
    matches. *)
Lemma findall_go_enough p bound (s : list ascii) :
  length s <= bound -> findall_go p bound s = findall_go p (length s) s.
Proof.
  revert s. induction bound as [bound IH] using lt_wf_ind. intros s Hb.
  destruct s as [|c s]; [by destruct bound|].
  destruct bound as [|bound]; [simpl in Hb; lia|]. simpl in Hb. simpl.
  destruct (match_here p (c :: s)) as [[|n]|].
  - apply IH; lia.
  - f_equal. simpl.
    assert (length (drop n s) <= length s) by (rewrite length_drop; lia).
    rewrite (IH bound) by lia. rewrite (IH (length s)) by lia. done.
  - apply IH; lia.
Qed.

(** The classes of the matcher hold the characters the specification
    lists, and no others. *)
Lemma local_class_chars (c : ascii) :
  local_class c = bool_decide (c ∈ list_ascii_of_string local_chars).
Proof. destruct c as [[] [] [] [] [] [] [] []]; vm_compute; reflexivity. Qed.

Lemma domain_class_chars (c : ascii) :
  domain_class c = bool_decide (c ∈ list_ascii_of_string domain_chars).
Proof. destruct c as [[] [] [] [] [] [] [] []]; vm_compute; reflexivity. Qed.

Lemma is_alpha_chars (c : ascii) :
  is_alpha c = bool_decide (c ∈ list_ascii_of_string letters).
Proof. destruct c as [[] [] [] [] [] [] [] []]; vm_compute; reflexivity. Qed.

Lemma class_made_of (cls : ascii -> bool) (chars : string) (w : list ascii) :
  (forall c, cls c = bool_decide (c ∈ list_ascii_of_string chars)) ->
  Forall (fun c => cls c = true) w
  <-> Forall (fun c => c ∈ list_ascii_of_string chars) w.
Proof.
  intros H. apply Forall_iff. intros c. by rewrite H, bool_decide_eq_true.
Qed.

Lemma made_of_chars (chars : string) (w : list ascii) :
  made_of chars (string_of_list_ascii w)
  <-> Forall (fun c => c ∈ list_ascii_of_string chars) w.
Proof. unfold made_of. by rewrite list_ascii_of_string_of_list_ascii. Qed.

Lemma lang_email_pattern (w : list ascii) :
  lang email_pattern w <-> email_word w.
Proof.
  unfold email_word, email_shape. split.
  - intros (l & w2 & -> & Hl & Fl & w' & -> & d & w4 & -> & Hd & Fd & w'' & -> &
            t & w6 & -> & Ht & Ft & ->).
    exists (string_of_list_ascii l), (string_of_list_ascii d), (string_of_list_ascii t).
    rewrite !made_of_chars.
    rewrite <- !length_list_ascii_of_string, !list_ascii_of_string_of_list_ascii.
    apply (class_made_of _ _ _ local_class_chars) in Fl.
    apply (class_made_of _ _ _ domain_class_chars) in Fd.
    apply (class_made_of _ _ _ is_alpha_chars) in Ft.
    repeat split; try done.
    rewrite string_of_list_ascii_app. simpl. rewrite string_of_list_ascii_app. simpl.
    by rewrite app_nil_r.
  - intros (l & d & t & E & Hl & Fl & Hd & Fd & Ht & Ft).
    apply (f_equal list_ascii_of_string) in E.
    rewrite list_ascii_of_string_of_list_ascii in E. subst w.
    rewrite <- length_list_ascii_of_string in Hl, Hd, Ht.
    apply (class_made_of _ _ _ local_class_chars) in Fl.
    apply (class_made_of _ _ _ domain_class_chars) in Fd.
    apply (class_made_of _ _ _ is_alpha_chars) in Ft.
    exists (list_ascii_of_string l), ("@"%char :: list_ascii_of_string d ++ "."%char :: list_ascii_of_string t).
    split; [|split; [done|split; [done|]]].
    { rewrite list_ascii_of_string_app. simpl. by rewrite list_ascii_of_string_app. }
    eexists; split; [done|].
    exists (list_ascii_of_string d), ("."%char :: list_ascii_of_string t).
    split; [done|split; [done|split; [done|]]].
    eexists; split; [done|].
    exists (list_ascii_of_string t), []. rewrite app_nil_r. done.
Qed.

Lemma email_pattern_not_empty : ~ lang email_pattern [].
Proof.
  intros (l & w2 & E & Hl & _). destruct l; simpl in *; [lia|done].
Qed.

Lemma email_word_nil : ~ email_word [].
Proof. intros H. by apply lang_email_pattern, email_pattern_not_empty in H. Qed.

(** *** The match found is the longest *)

(** The repetition that the matcher settles on is the longest one after
    which the rest of the pattern matches. *)
Lemma backtrack_largest k lo n (s : list ascii) r :
  backtrack k lo n s = Some r ->
  exists m r', lo <= m /\ m <= n /\ k (drop m s) = Some r' /\ r = m + r'
               /\ forall m', m < m' -> m' <= n -> k (drop m' s) = None.
Proof.
  induction n as [|n IH]; simpl; intros H.
  - destruct (decide (0 < lo)); [done|].
    destruct (k (drop 0 s)) as [r'|] eqn:E; [|done].
    exists 0, r'. split; [lia|]. split; [lia|]. split; [done|].
    split; [by injection H as <-|]. intros; lia.
  - destruct (decide (S n < lo)); [done|].
    destruct (k (drop (S n) s)) as [r'|] eqn:E.
    + exists (S n), r'. split; [lia|]. split; [lia|]. split; [done|].
      split; [by injection H as <-|]. intros; lia.
    + destruct (IH H) as (m & r' & ? & ? & ? & ? & Hm).
      exists m, r'. split; [done|]. split; [lia|]. split; [done|]. split; [done|].
      intros m' ? ?. destruct (decide (m' = S n)) as [-> |]; [done|].
      apply Hm; lia.
Qed.

Lemma span_stop cls (w rest : list ascii) (c : ascii) :
  Forall (fun c => cls c = true) w -> cls c = false ->
  span cls (w ++ c :: rest) = length w.
Proof.
  intros Hw Hc. induction Hw as [|x w Hx _ IH]; simpl; [by rewrite Hc|].
  by rewrite Hx, IH.
Qed.

Lemma lookup_drop_head (s rest : list ascii) (m : nat) (c : ascii) :
  drop m s = c :: rest -> s !! m = Some c.
Proof.
  intros H. pose proof (lookup_drop s m 0) as E.
  rewrite H, Nat.add_0_r in E. by simpl in E.
Qed.

(** A match of a single class taken greedily runs to the end of the class. *)
Lemma match_here_class cls lo (s : list ascii) r :
  match_here [Rep cls lo] s = Some r -> r = span cls s.
Proof.
  cbn [match_here]. intros H.
  apply backtrack_largest in H as (m & r' & _ & Hm & Hk & -> & Hmax).
  injection Hk as <-. rewrite Nat.add_0_r.
  destruct (decide (m = span cls s)) as [|Hne]; [done|].
  by specialize (Hmax (span cls s) ltac:(lia) ltac:(lia)).
Qed.

(** The match of the pattern found at a position is the longest word of
    the pattern that starts there: the local part runs up to the ['@'], the
    domain up to the last dot that two letters follow, and the top-level
    label over all the letters after it. *)
Lemma match_here_email_longest (s : list ascii) (n : nat) (w r : list ascii) :
  match_here email_pattern s = Some n ->
  s = w ++ r -> lang email_pattern w -> length w <= n.
Proof.
  intros Hm -> (l & w2 & -> & Hl & Fl & w' & -> & d & w4 & -> & Hd & Fd & w'' & -> &
                t & w6 & -> & Ht & Ft & ->).
  rewrite app_nil_r in *.
  change (match_here email_pattern ?x)
    with (backtrack (match_here [Chr "@"; Rep domain_class 1; Chr "."; Rep is_alpha 2])
            1 (span local_class x) x) in Hm.
  apply backtrack_largest in Hm as (m1 & r1 & _ & Hle1 & Hk1 & -> & _).
  rewrite <- (assoc_L (++)) in Hle1, Hk1. cbn [app] in Hle1, Hk1.
  rewrite span_stop in Hle1 by (done || reflexivity).
  assert (m1 = length l) as ->.
  { destruct (decide (m1 = length l)) as [|Hne]; [done|]. exfalso.
    destruct (lookup_lt_is_Some_2 l m1 ltac:(lia)) as [x Hx].
    rewrite drop_app_le in Hk1 by lia. rewrite (drop_S _ _ _ Hx) in Hk1.
    cbn [app match_here] in Hk1.
    destruct (decide (x = "@"%char)) as [-> |]; [|done].
    rewrite Forall_lookup in Fl. by specialize (Fl _ _ Hx). }
  rewrite drop_app_length in Hk1. cbn [match_here] in Hk1.
  destruct (decide ("@"%char = "@"%char)); [|done].
  rewrite <- (assoc_L (++)) in Hk1. cbn [app] in Hk1.
  set (s2 := d ++ "."%char :: t ++ r) in *.
  destruct (backtrack _ 1 (span domain_class s2) s2) as [r2|] eqn:E2; [|done].
  injection Hk1 as <-.
  apply backtrack_largest in E2 as (m2 & r3 & _ & Hle2 & Hk3 & -> & Hmax2).
  assert (length d <= span domain_class s2) as Hd2 by (by apply span_app).
  assert (length d <= m2) as Hdm.
  { destruct (decide (length d <= m2)) as [|Hlt]; [done|]. exfalso.
    specialize (Hmax2 (length d) ltac:(lia) Hd2).
    unfold s2 in Hmax2. rewrite drop_app_length in Hmax2.
    destruct (match_here_complete [Chr "."; Rep is_alpha 2] ("."%char :: t) r)
      as [x Hx].
    - eexists. split; [done|]. exists t, []. by rewrite app_nil_r.
    - cbn [app match_here] in Hx, Hmax2. congruence. }
  destruct (drop m2 s2) as [|c s3] eqn:Ed; [done|].
  cbn [match_here] in Hk3.
  destruct (decide (c = "."%char)) as [-> |]; [|done].
  destruct (backtrack _ 2 (span is_alpha s3) s3) as [r4|] eqn:E4; [|done].
  injection Hk3 as <-.
  apply (match_here_class is_alpha 2) in E4 as ->.
  rewrite !length_app. cbn [length]. rewrite length_app. cbn [length].
  destruct (decide (m2 = length d)) as [-> |Hne].
  - unfold s2 in Ed. rewrite drop_app_length in Ed. injection Ed as <-.
    pose proof (span_app is_alpha t r Ft). lia.
  - assert (length d + 1 + length t <= m2); [|lia].
    destruct (decide (length d + 1 + length t <= m2)) as [|Hlt]; [done|]. exfalso.
    apply lookup_drop_head in Ed. unfold s2 in Ed.
    rewrite lookup_app_r in Ed by lia.
    destruct (m2 - length d) as [|j] eqn:Ej; [lia|]. simpl in Ed.
    rewrite lookup_app_l in Ed by lia.
    rewrite Forall_lookup in Ft. by specialize (Ft _ _ Ed).
Qed.

(** *** The scan *)

Lemma findall_go_scanned bound (s : list ascii) :
  length s <= bound -> scanned s (findall_go email_pattern bound s).
Proof.
  revert s. induction bound as [|bound IH]; intros s Hb.
  - destruct s; [constructor|simpl in Hb; lia].
  - destruct s as [|c s]; [constructor|]. cbn [findall_go]. simpl in Hb.
    destruct (match_here email_pattern (c :: s)) as [[|n]|] eqn:E.
    + destruct (match_here_sound _ _ _ E) as [_ Hl]. rewrite take_0 in Hl.
      by apply email_pattern_not_empty in Hl.
    + destruct (match_here_sound _ _ _ E) as [Hlen Hlang].
      rewrite <- (take_drop (S n) (c :: s)) at 1. apply scanned_match.
      * by apply lang_email_pattern.
      * intros w' r' Heq Hw'. rewrite take_drop in Heq. rewrite length_take.
        apply lang_email_pattern in Hw'.
        pose proof (match_here_email_longest _ _ w' r' E Heq Hw'). lia.
      * apply IH. rewrite length_drop. simpl. lia.
    + apply scanned_skip.
      * intros w r Heq Hw. apply lang_email_pattern in Hw.
        destruct (match_here_complete email_pattern w r Hw) as [x Hx].
        rewrite <- Heq in Hx. congruence.
      * apply IH. lia.
Qed.

(** The matches of a scan are determined by the text. *)
Lemma scanned_functional (s : list ascii) (l1 l2 : list (list ascii)) :
  scanned s l1 -> scanned s l2 -> l1 = l2.
Proof.
  intros H1. revert l2.
  induction H1 as [|c s l Hno H1 IH|w r l Hw Hlong H1 IH]; intros l2 H2.
  - inversion H2 as [| |w r l' Hw _ _ Heq]; [done|].
    destruct w; [by apply email_word_nil in Hw|done].
  - inversion H2 as [|c' s' l' Hno' H2'|w r l' Hw Hlong H2' Heq]; subst.
    + by apply IH.
    + exfalso. by apply (Hno w r).
  - remember (w ++ r) as s eqn:Es.
    destruct H2 as [|c s' l' Hno' H2'|w' r' l' Hw' Hlong' H2'].
    + destruct w; [by apply email_word_nil in Hw|done].
    + exfalso. by apply (Hno' w r).
    + pose proof (Hlong w' r' eq_refl Hw').
      pose proof (Hlong' w r Es Hw).
      apply app_inj_1 in Es as [-> ->]; [|lia]. f_equal. by apply IH.
Qed.

Lemma findall_chars (s : string) :
  list_ascii_of_string <$> findall email_pattern s
  = findall_go email_pattern (length (list_ascii_of_string s)) (list_ascii_of_string s).
Proof.
  unfold findall. rewrite <- list_fmap_compose.
  rewrite <- (list_fmap_id (findall_go _ _ _)) at 2.
  apply list_fmap_ext. intros i x _. simpl.
  apply list_ascii_of_string_of_list_ascii.
Qed.

Lemma findall_scanned (s : string) :
  scanned (list_ascii_of_string s) (list_ascii_of_string <$> findall email_pattern s).
Proof. rewrite findall_chars. by apply findall_go_scanned. Qed.

Lemma scanned_findall (s : string) (l : list (list ascii)) :
  scanned (list_ascii_of_string s) l ->
  findall email_pattern s = string_of_list_ascii <$> l.
Proof.
  intros H. rewrite <- (scanned_functional _ _ _ (findall_scanned s) H).
  rewrite <- list_fmap_compose.
  rewrite <- (list_fmap_id (findall _ _)) at 1.
  apply list_fmap_ext. intros i x _. simpl.
  by rewrite string_of_list_ascii_of_string.
Qed.

End Regex.

(** ** The email extractor *)

Section Emails.

Import EmailScraper.

Lemma elem_of_extract_emails (html_content e : string) :
  e ∈ extract_emails html_content <-> e ∈ Re.findall Re.email_pattern html_content.
Proof. unfold extract_emails. by rewrite elem_of_elements, elem_of_list_to_set. Qed.

Lemma findall_sound (html_content e : string) :
  e ∈ Re.findall Re.email_pattern html_content ->
  Re.occurs_in e html_content /\ Re.email_shape e.
Proof.
  unfold Re.findall. intros H.
  apply list_elem_of_fmap in H as (x & -> & Hx).
  apply findall_go_sound in Hx as (b & a & Hs & Hl). split.
  - exists (string_of_list_ascii b), (string_of_list_ascii a).
    rewrite <- !string_of_list_ascii_app, <- Hs.
    by rewrite string_of_list_ascii_of_string.
  - by apply lang_email_pattern.
Qed.

Lemma findall_complete (html_content e : string) :
  Re.occurs_in e html_content -> Re.email_shape e ->
  Re.findall Re.email_pattern html_content <> [].
Proof.
  intros (b & a & ->) He. unfold Re.findall. intros Hnil.
  apply fmap_nil_inv in Hnil. revert Hnil.
  apply findall_go_complete; [apply email_pattern_not_empty|lia|].
  exists (list_ascii_of_string b), (list_ascii_of_string e), (list_ascii_of_string a).
  split; [by rewrite !list_ascii_of_string_app|].
  apply lang_email_pattern. unfold Re.email_word.
  by rewrite string_of_list_ascii_of_string.
Qed.

Lemma NoDup_extract_emails (html_content : string) :
  NoDup (extract_emails html_content).
Proof. unfold extract_emails. apply NoDup_elements. Qed.

Lemma update_emails_twice (self : Spider) (response : Response) :
  update_emails (update_emails self response) response = update_emails self response.
Proof. unfold update_emails. simpl. f_equal. set_solver. Qed.

(** C6. [extract_emails] gives a list without duplicates, and scanning the
    same content a second time gives the same set: accumulating the second
    result changes nothing ([self.emails.update(extract_emails(text))] done
    twice is the same as done once), and the set of the two results taken
    together is the set of one. *)
Theorem extract_emails_idempotent (html_content : string) :
  NoDup (extract_emails html_content)
  /\ (list_to_set (extract_emails html_content ++ extract_emails html_content)%list
      = (list_to_set (extract_emails html_content) : gset string))
  /\ (forall (self : Spider) (url : string) (hrefs : list string),
        let response := mkResponse url html_content hrefs in
        update_emails (update_emails self response) response
        = update_emails self response).
Proof.
  split; [apply NoDup_extract_emails|]. split.
  - rewrite list_to_set_app_L. set_solver.
  - intros. apply update_emails_twice.
Qed.

(** C7. The emails extracted are the distinct matches of the pattern
    local-part@domain.tld in the text, where the local part is one or more
    of letters/digits/[._%+-], the domain one or more of letters/digits/[.-]
    and the top-level label two or more letters.  The matches are those of
    a scan from left to right without overlap that takes, at the first
    position where a word of that shape starts, the longest such word, and
    resumes after it; the text determines them.  Each match is a piece of
    the text, kept character for character (no case folding); matches are
    the same only when they are the same string, and each is listed once.
    A text that holds a piece of the shape gives a non-empty result.  On
    ['Contact: info@example.com and SALES@Example.com'] the result is
    exactly the two addresses, each in its own case; digits and each of the
    listed punctuation characters are kept, and a top-level label of one
    letter, an empty local part or an empty domain gives no match. *)
Theorem extract_emails_matches (html_content : string) :
  NoDup (extract_emails html_content)
  /\ (forall e, e ∈ extract_emails html_content
                <-> e ∈ Re.findall Re.email_pattern html_content)
  /\ Re.scanned (list_ascii_of_string html_content)
       (list_ascii_of_string <$> Re.findall Re.email_pattern html_content)
  /\ (forall l : list (list ascii),
        Re.scanned (list_ascii_of_string html_content) l ->
        Re.findall Re.email_pattern html_content = string_of_list_ascii <$> l)
  /\ (forall e, e ∈ extract_emails html_content ->
                Re.occurs_in e html_content /\ Re.email_shape e)
  /\ ((exists e, Re.occurs_in e html_content /\ Re.email_shape e) ->
      extract_emails html_content <> [])
  /\ (forall e, e ∈ extract_emails "Contact: info@example.com and SALES@Example.com"
                <-> e = "info@example.com" \/ e = "SALES@Example.com")
  /\ (list_to_set (extract_emails "Contact: info@example.com and SALES@Example.com")
      = ({[ "info@example.com"; "SALES@Example.com" ]} : gset string))
  /\ extract_emails "a1@b2.com" = ["a1@b2.com"]
  /\ extract_emails "To: <First.Last_x%y+z-9@mail-1.Example.co.uk>, or x@y.z"
     = ["First.Last_x%y+z-9@mail-1.Example.co.uk"]
  /\ (list_to_set (extract_emails "a@b.com a@b.com; A@b.com")
      = ({[ "a@b.com"; "A@b.com" ]} : gset string))
  /\ extract_emails "a@b, @b.com, a@.com, a@b.c and a#b@c!de" = [].
Proof.
  split; [apply NoDup_extract_emails|].
  split; [apply elem_of_extract_emails|].
  split; [apply findall_scanned|].
  split; [apply scanned_findall|].
  split; [intros e He; by apply findall_sound, elem_of_extract_emails|].
  split.
  { intros (e & Ho & He) Hnil.
    destruct (Re.findall Re.email_pattern html_content) as [|x l] eqn:E.
    - by apply (findall_complete _ _ Ho He).
    - assert (x ∈ extract_emails html_content) as Hx.
      { apply elem_of_extract_emails. rewrite E. left. }
      rewrite Hnil in Hx. by apply elem_of_nil in Hx. }
  assert (Re.findall Re.email_pattern "Contact: info@example.com and SALES@Example.com"
          = ["info@example.com"; "SALES@Example.com"]) as Hscan by (vm_compute; reflexivity).
  assert (Re.findall Re.email_pattern "a@b.com a@b.com; A@b.com"
          = ["a@b.com"; "a@b.com"; "A@b.com"]) as Hdup by (vm_compute; reflexivity).
  split.
  { intros e. rewrite elem_of_extract_emails, Hscan. set_solver. }
  split.
  { apply set_eq. intros e.
    rewrite elem_of_list_to_set, elem_of_extract_emails, Hscan. set_solver. }
  split; [vm_compute; reflexivity|].
  split; [vm_compute; reflexivity|].
  split; [|vm_compute; reflexivity].
  apply set_eq. intros e.
  rewrite elem_of_list_to_set, elem_of_extract_emails, Hdup. set_solver.
Qed.

Section Rescan.

Variable urljoin : string -> string -> Result string.
Variable Request : string -> Result string.

(** C9. On a page whose URL holds one of the keywords, [parse] with the
    keyword-triggered scan and [parse] without it yield the same requests
    and leave the same spider, in particular the same accumulated emails. *)
Theorem keyword_rescan_redundant (self : Spider) (response : Response) :
  keyword_page response = true ->
  parse urljoin Request self response
  = parse_without_rescan urljoin Request self response.
Proof.
  intros Hk. unfold parse, parse_without_rescan.
  destruct (parse_links _ _ _ _ _) as [requests [e|]]; [done|].
  by rewrite Hk, update_emails_twice.
Qed.

End Rescan.

(** A contact page, on which the keyword scan runs. *)
Lemma keyword_rescan_redundant_witness :
  let response :=
    mkResponse "https://example.com/Contact-Us" "mail: info@example.com" ["/b"] in
  keyword_page response = true
  /\ parse Sample.response_urljoin Sample.Request (init Sample.seed) response
     = parse_without_rescan Sample.response_urljoin Sample.Request
         (init Sample.seed) response.
Proof.
  split; [reflexivity|].
  apply (keyword_rescan_redundant Sample.response_urljoin Sample.Request).
  reflexivity.
Defined.

End Emails.

(** ** The spider callback and the frontier *)

Section Acceptance.

Import EmailScraper.

(** What the acceptance rule lets into the frontier. *)
Lemma accept_links_spec (depth_limit depth : nat) (requests : list string)
    (reserved : gset string) :
  let entries := (accept_links depth_limit depth requests reserved).1 in
  (accept_links depth_limit depth requests reserved).2
    = reserved ∪ list_to_set entries.*1
  /\ NoDup entries.*1
  /\ forall e : FrontierEntry, e ∈ entries ->
       e.1 ∈ requests /\ (e.1 ∉ reserved) /\ e.2 = S depth /\ S depth <= depth_limit.
Proof.
  revert reserved. induction requests as [|request rest IH]; intros reserved;
    cbn [accept_links].
  - simpl. split; [set_solver|]. split; [constructor|]. by intros e ?%elem_of_nil.
  - destruct (decide _) as [[Hd Hn]|Hno].
    + specialize (IH (reserved ∪ {[ request ]})).
      destruct (accept_links depth_limit depth rest (reserved ∪ {[ request ]}))
        as [entries reserved']. cbn [fst snd] in *.
      destruct IH as (-> & Hnd & Hin). csimpl. split; [set_solver|]. split.
      * apply NoDup_cons. split; [|done].
        intros (e & -> & He)%list_elem_of_fmap.
        destruct (Hin e He) as (_ & Hr & _). set_solver.
      * intros e [-> |He]%elem_of_cons.
        -- simpl. split; [left|done].
        -- destruct (Hin e He) as (? & Hr & ? & ?).
           split; [by right|]. split; [set_solver|done].
    + destruct (IH reserved) as (-> & Hnd & Hin).
      split; [done|]. split; [done|].
      intros e He. destruct (Hin e He) as (? & ? & ? & ?). split; [by right|done].
Qed.

Lemma accept_links_bounded (depth_limit depth : nat) (requests : list string)
    (reserved : gset string) :
  Forall (fun e : FrontierEntry => e.2 <= depth_limit)
         (accept_links depth_limit depth requests reserved).1.
Proof.
  apply Forall_forall. intros e He.
  destruct (accept_links_spec depth_limit depth requests reserved) as (_ & _ & H).
  destruct (H e He) as (_ & _ & -> & ?). done.
Qed.

Lemma reserve_step (seen queue new : list string) (u : string) (R : gset string) :
  NoDup (seen ++ u :: queue) ->
  (forall x, x ∈ (seen ++ u :: queue)%list -> x ∈ R) ->
  NoDup new -> (forall x, x ∈ new -> x ∉ R) ->
  NoDup ((seen ++ [u]) ++ queue ++ new)
  /\ forall x, x ∈ ((seen ++ [u]) ++ queue ++ new)%list -> x ∈ R ∪ list_to_set new.
Proof.
  intros Hnd Hin Hnew Hfresh.
  assert (((seen ++ [u]) ++ queue ++ new = (seen ++ u :: queue) ++ new)%list) as ->.
  { by rewrite <- !(assoc_L (++)). }
  split.
  - apply NoDup_app. split; [done|]. split; [|done].
    intros x Hx Hx'. by apply (Hfresh x Hx'), Hin.
  - intros x [Hx|Hx]%elem_of_app; [apply Hin in Hx|]; set_solver.
Qed.

End Acceptance.

Section SpiderFacts.

Import EmailScraper.

Variable urljoin : string -> string -> Result string.
Variable Request : string -> Result string.

Lemma follows_true (self : Spider) (link : string) :
  follows self link = true <->
  PyStr.startswith "http" link = true
  /\ PyStr.contains (allowed_domain self) link = true
  /\ link ∉ visited_pages self.
Proof.
  unfold follows. rewrite !andb_true_iff, bool_decide_eq_true. tauto.
Qed.

(** Every request yielded by the loop was built from an anchor of the page
    whose link, once resolved, passed the test of [parse]. *)
Lemma elem_of_parse_links (self : Spider) (response : Response)
    (links : list string) (request : string) :
  request ∈ (parse_links urljoin Request self response links).1 ->
  exists href link, href ∈ links
    /\ resolve urljoin response href = Ok link
    /\ follows self link = true
    /\ Request link = Ok request.
Proof.
  induction links as [|href links IH]; cbn [parse_links].
  - by intros ?%elem_of_nil.
  - destruct (resolve urljoin response href) as [link|e] eqn:Er;
      [|by intros ?%elem_of_nil].
    assert (request ∈ (parse_links urljoin Request self response links).1 ->
            exists href' link', href' ∈ href :: links
              /\ resolve urljoin response href' = Ok link'
              /\ follows self link' = true
              /\ Request link' = Ok request) as Hrest.
    { intros (h & l & ? & ? & ? & ?)%IH. exists h, l. split; [by right|done]. }
    destruct (follows self link) eqn:Ef; [|done].
    destruct (Request link) as [r|e] eqn:Eq; [|by intros ?%elem_of_nil].
    destruct (parse_links urljoin Request self response links) as [requests raised].
    cbn [fst] in *. intros [-> |Hin]%elem_of_cons; [|by apply Hrest].
    exists href, link. split; [left|done].
Qed.

(** When nothing raises, every anchor that passes the test is requested. *)
Lemma parse_links_complete (self : Spider) (response : Response)
    (links : list string) (href link request : string) :
  (parse_links urljoin Request self response links).2 = None ->
  href ∈ links ->
  resolve urljoin response href = Ok link ->
  follows self link = true ->
  Request link = Ok request ->
  request ∈ (parse_links urljoin Request self response links).1.
Proof.
  intros Hn Hin Hr Hf Hq.
  induction links as [|h links IH]; [by apply elem_of_nil in Hin|].
  cbn [parse_links] in *.
  destruct (resolve urljoin response h) as [l|e] eqn:Er; [|done].
  apply elem_of_cons in Hin as [<- |Hin].
  - assert (l = link) as -> by congruence. rewrite Hf, Hq in *.
    destruct (parse_links urljoin Request self response links). left.
  - destruct (follows self l); [|by apply IH].
    destruct (Request l) as [r|e]; [|done].
    destruct (parse_links urljoin Request self response links) as [requests raised].
    cbn [fst snd] in *. right. by apply IH.
Qed.

(** What one call of [parse] does to the visited set and which requests it
    yields. *)
Lemma parse_step (self : Spider) (response : Response) :
  visited_pages (parse urljoin Request self response).2
    = visited_pages self ∪ {[ url response ]}
  /\ allowed_domains (parse urljoin Request self response).2 = allowed_domains self
  /\ forall request, request ∈ (parse urljoin Request self response).1 ->
       exists href link, href ∈ hrefs response
         /\ resolve urljoin response href = Ok link
         /\ PyStr.startswith "http" link = true
         /\ PyStr.contains (allowed_domain self) link = true
         /\ (link ∉ visited_pages self) /\ link <> url response
         /\ Request link = Ok request.
Proof.
  unfold parse.
  pose proof (elem_of_parse_links
                (update_emails (mark_visited self response) response)
                response (hrefs response)) as Hreq.
  destruct (parse_links _ _ _ _ _) as [requests raised]. cbn [fst snd] in *.
  split; [by destruct raised, (keyword_page response)|].
  split; [by destruct raised, (keyword_page response)|].
  intros request (h & l & ? & ? & (? & ? & Hv)%follows_true & ?)%Hreq.
  simpl in Hv. exists h, l. unfold allowed_domain in *. simpl in *.
  repeat split; try done; set_solver.
Qed.

#[local] Arguments parse : simpl never.

Lemma parse_all_cons (self : Spider) (response : Response) (rest : list Response) :
  parse_all urljoin Request self (response :: rest)
  = ((parse urljoin Request self response).1
       :: (parse_all urljoin Request (parse urljoin Request self response).2 rest).1,
     (parse_all urljoin Request (parse urljoin Request self response).2 rest).2).
Proof.
  cbn [parse_all]. destruct (parse urljoin Request self response) as [requests self'].
  cbn [fst snd]. by destruct (parse_all urljoin Request self' rest).
Qed.

(** The visited set of the spider grows by the URLs of the responses
    parsed, and a request is yielded only for a link that, as written, is
    in the visited set neither before the run nor as the URL of a response
    parsed so far. *)
Lemma parse_all_visited (self : Spider) (responses : list Response) :
  visited_pages (parse_all urljoin Request self responses).2
    = visited_pages self ∪ list_to_set (url <$> responses)
  /\ forall (i : nat) (requests : list string) (request : string),
       (parse_all urljoin Request self responses).1 !! i = Some requests ->
       request ∈ requests ->
       exists response href link,
         responses !! i = Some response
         /\ href ∈ hrefs response
         /\ resolve urljoin response href = Ok link
         /\ Request link = Ok request
         /\ (link ∉ visited_pages self)
         /\ forall (j : nat) (parsed : Response),
              j <= i -> responses !! j = Some parsed -> link <> url parsed.
Proof.
  revert self. induction responses as [|r rest IH]; intros self.
  - simpl. split; [set_solver|]. intros i ? ? H. by destruct i.
  - rewrite parse_all_cons. cbn [fst snd].
    destruct (parse_step self r) as (Hv & _ & Hreq).
    destruct (IH (parse urljoin Request self r).2) as [IHv IHreq].
    split; [rewrite IHv, Hv; set_solver|].
    intros [|i] requests request Hi Hin; simpl in Hi.
    + injection Hi as <-. apply Hreq in Hin as (h & l & ? & ? & ? & ? & ? & ? & ?).
      exists r, h, l. repeat split; try done.
      intros [|j] parsed Hj Hr; [|lia]. simpl in Hr. by injection Hr as <-.
    + destruct (IHreq i requests request Hi Hin)
        as (response & h & l & ? & ? & ? & ? & Hnv & Hj).
      rewrite Hv in Hnv. exists response, h, l. repeat split; try done; [set_solver|].
      intros [|j] parsed Hle Hr; simpl in Hr.
      * injection Hr as <-. set_solver.
      * apply (Hj j); [lia|done].
Qed.

Variable fetch : string -> option Response.

Lemma crawl_step_bounded (depth_limit : nat) (c : Crawl) :
  depth_bounded depth_limit c ->
  depth_bounded depth_limit (crawl_step urljoin Request fetch depth_limit c).
Proof.
  intros [Hf Hd]. unfold crawl_step.
  destruct (frontier c) as [|[u depth] queue] eqn:E; [by rewrite <- E in Hf|].
  apply Forall_cons in Hf as [Hu Hq].
  destruct (fetch u) as [response|].
  - destruct (parse urljoin Request (spider c) response) as [requests self].
    pose proof (accept_links_bounded depth_limit depth requests (reserved c)) as Ha.
    destruct (accept_links depth_limit depth requests (reserved c)) as [entries r].
    split; simpl.
    + apply Forall_app. split; [done|exact Ha].
    + apply Forall_app. split; [done|]. by repeat constructor.
  - split; simpl; [done|]. apply Forall_app. split; [done|]. by repeat constructor.
Qed.

Lemma crawl_run_bounded (depth_limit steps : nat) (c : Crawl) :
  depth_bounded depth_limit c ->
  depth_bounded depth_limit (crawl_run urljoin Request fetch depth_limit steps c).
Proof.
  revert c. induction steps as [|steps IH]; intros c H; simpl; [done|].
  by apply IH, crawl_step_bounded.
Qed.

Lemma crawl_run_done (depth_limit steps : nat) (c : Crawl) :
  frontier c = [] -> crawl_run urljoin Request fetch depth_limit steps c = c.
Proof.
  intros H. induction steps as [|steps IH]; simpl; [done|].
  unfold crawl_step at 1. by rewrite H.
Qed.

Lemma crawl_run_add (depth_limit n m : nat) (c : Crawl) :
  crawl_run urljoin Request fetch depth_limit (n + m) c
  = crawl_run urljoin Request fetch depth_limit m
      (crawl_run urljoin Request fetch depth_limit n c).
Proof. revert c. induction n as [|n IH]; intros c; simpl; [done|]. by rewrite IH. Qed.

Lemma crawl_depth_bounded (depth_limit : nat) (start_url : string) (steps : nat) :
  depth_bounded depth_limit
    (crawl_run urljoin Request fetch depth_limit steps (crawl_start start_url)).
Proof.
  apply crawl_run_bounded. split; simpl; repeat constructor. simpl. lia.
Qed.

(** *** The reservation *)

Lemma crawl_step_reservation (depth_limit : nat) (c : Crawl) :
  reservation c -> reservation (crawl_step urljoin Request fetch depth_limit c).
Proof.
  intros [Hnd Hin]. unfold crawl_step.
  destruct (frontier c) as [|[u depth] queue] eqn:E;
    [split; rewrite E; [exact Hnd|exact Hin]|].
  csimpl in Hnd. csimpl in Hin.
  destruct (fetch u) as [response|].
  - destruct (parse urljoin Request (spider c) response) as [requests self].
    destruct (accept_links_spec depth_limit depth requests (reserved c))
      as (HR & Hnew & Hent).
    destruct (accept_links depth_limit depth requests (reserved c)) as [entries R].
    cbn [fst snd] in *. subst R. unfold reservation. cbn [fetched frontier reserved].
    rewrite !fmap_app. csimpl.
    apply reserve_step; [done|done|done|].
    intros x (e & -> & He)%list_elem_of_fmap. by destruct (Hent e He) as (_ & ? & _).
  - unfold reservation. cbn [fetched frontier reserved]. rewrite fmap_app. csimpl.
    destruct (reserve_step (fetched c).*1 queue.*1 [] u (reserved c)) as [H1 H2];
      [done|done|constructor|by intros x ?%elem_of_nil|].
    rewrite !app_nil_r in H1, H2. split; [done|].
    intros x Hx. specialize (H2 x Hx). set_solver.
Qed.

Lemma crawl_run_reservation (depth_limit steps : nat) (start_url : string) :
  reservation
    (crawl_run urljoin Request fetch depth_limit steps (crawl_start start_url)).
Proof.
  assert (forall c, reservation c ->
            reservation (crawl_run urljoin Request fetch depth_limit steps c)) as H.
  { induction steps as [|n IH]; intros c Hc; simpl; [done|].
    by apply IH, crawl_step_reservation. }
  apply H. split; simpl.
  - apply NoDup_singleton.
  - intros u ->%list_elem_of_singleton. set_solver.
Qed.

(** An entry that a step puts into the frontier was not reserved before
    the step and is reserved after it. *)
Lemma crawl_step_reserves (depth_limit : nat) (c : Crawl) (u : string)
    (depth : nat) (queue : list FrontierEntry) (entry : FrontierEntry) :
  frontier c = (u, depth) :: queue ->
  entry ∈ frontier (crawl_step urljoin Request fetch depth_limit c) ->
  entry ∈ queue
  \/ ((entry.1 ∉ reserved c)
      /\ entry.1 ∈ reserved (crawl_step urljoin Request fetch depth_limit c)).
Proof.
  intros Hf. unfold crawl_step. rewrite Hf.
  destruct (fetch u) as [response|]; [|by left].
  destruct (parse urljoin Request (spider c) response) as [requests self].
  destruct (accept_links_spec depth_limit depth requests (reserved c))
    as (HR & _ & Hent).
  destruct (accept_links depth_limit depth requests (reserved c)) as [entries R].
  cbn [fst snd frontier reserved] in *. subst R.
  intros [?|He]%elem_of_app; [by left|right].
  destruct (Hent entry He) as (_ & ? & _). split; [done|].
  apply elem_of_union_r, elem_of_list_to_set, list_elem_of_fmap. by exists entry.
Qed.

End SpiderFacts.

Section SpiderClaims.

Import EmailScraper.

(** C1, as the code has it.  Every URL is fetched at most once during a
    job: the frontier accepts a request only if its URL is not reserved and
    reserves it at that moment, at enqueue time, so that no URL already
    enqueued or dequeued is enqueued again, whatever the pages link to and
    however long the crawl runs.  That reservation is the frontier's.  The
    spider's own visited set grows only by the URL of each response, when
    that response is parsed, and [parse] yields a request only for a link
    that passes its test, the link as written being in the visited set
    neither before the run nor as the URL of a response parsed so far; the
    links it requests are not themselves marked. *)
Theorem fetched_at_most_once :
  (forall (urljoin : string -> string -> Result string)
          (Request : string -> Result string) (fetch : string -> option Response)
          (depth_limit : nat) (start_url : string) (steps : nat),
      let c := crawl_run urljoin Request fetch depth_limit steps
                 (crawl_start start_url) in
      NoDup (fetched c).*1
      /\ NoDup ((fetched c).*1 ++ (frontier c).*1)
      /\ (forall u : string,
            u ∈ ((fetched c).*1 ++ (frontier c).*1)%list -> u ∈ reserved c))
  /\ (forall (urljoin : string -> string -> Result string)
             (Request : string -> Result string) (fetch : string -> option Response)
             (depth_limit : nat) (c : Crawl) (u : string) (depth : nat)
             (queue : list FrontierEntry) (entry : FrontierEntry),
        frontier c = (u, depth) :: queue ->
        entry ∈ frontier (crawl_step urljoin Request fetch depth_limit c) ->
        entry ∈ queue
        \/ ((entry.1 ∉ reserved c)
            /\ entry.1 ∈ reserved (crawl_step urljoin Request fetch depth_limit c)))
  /\ (forall (urljoin : string -> string -> Result string)
             (Request : string -> Result string) (self : Spider)
             (responses : list Response),
        visited_pages (parse_all urljoin Request self responses).2
          = visited_pages self ∪ list_to_set (url <$> responses)
        /\ forall (i : nat) (requests : list string) (request : string),
             (parse_all urljoin Request self responses).1 !! i = Some requests ->
             request ∈ requests ->
             exists response href link,
               responses !! i = Some response
               /\ href ∈ hrefs response
               /\ resolve urljoin response href = Ok link
               /\ Request link = Ok request
               /\ (link ∉ visited_pages self)
               /\ forall (j : nat) (parsed : Response),
                    j <= i -> responses !! j = Some parsed -> link <> url parsed).
Proof.
  split; [|split].
  - intros urljoin Request fetch depth_limit start_url steps c.
    destruct (crawl_run_reservation urljoin Request fetch depth_limit steps start_url)
      as [Hnd Hin].
    split; [by apply NoDup_app in Hnd as (? & _)|]. split; [done|done].
  - intros. by eapply crawl_step_reserves.
  - intros. apply parse_all_visited.
Qed.

Section Frontier.

Variable urljoin : string -> string -> Result string.
Variable Request : string -> Result string.
Variable fetch : string -> option Response.

(** C2, as the code has it.  A request enters the frontier, when the page
    fetched for the head entry is processed, only as follows: it was built
    from an anchor target of the page, resolved against the page URL when
    it starts with ['/'] and taken as it is otherwise; the link starts with
    ['http']; the job's domain occurs in it as a substring; the link is not
    in the visited set and is not the page's own URL; the URL of the request
    is not reserved in the frontier; and it is enqueued at the page's depth
    plus one, which does not exceed the depth limit. *)
Theorem frontier_accepts_only (depth_limit : nat) (c : Crawl) (u : string)
    (depth : nat) (queue : list FrontierEntry) (response : Response)
    (entry : FrontierEntry) :
  frontier c = (u, depth) :: queue ->
  fetch u = Some response ->
  entry ∈ frontier (crawl_step urljoin Request fetch depth_limit c) ->
  entry ∈ queue
  \/ ((exists href link,
         href ∈ hrefs response
         /\ (if PyStr.startswith "/" href
             then urljoin (url response) href else Ok href) = Ok link
         /\ PyStr.startswith "http" link = true
         /\ PyStr.contains (allowed_domain (spider c)) link = true
         /\ (link ∉ visited_pages (spider c))
         /\ link <> url response
         /\ Request link = Ok entry.1)
      /\ (entry.1 ∉ reserved c)
      /\ entry.2 = S depth
      /\ S depth <= depth_limit).
Proof.
  intros Hf Hu. unfold crawl_step. rewrite Hf, Hu.
  destruct (parse_step urljoin Request (spider c) response) as (_ & _ & Hreq).
  destruct (parse urljoin Request (spider c) response) as [requests self].
  destruct (accept_links_spec depth_limit depth requests (reserved c))
    as (_ & _ & Hent).
  destruct (accept_links depth_limit depth requests (reserved c)) as [entries R].
  cbn [fst snd frontier] in *.
  intros [?|He]%elem_of_app; [by left|right].
  destruct (Hent entry He) as (Hin & ? & ? & ?).
  split; [|done]. apply Hreq in Hin as (h & l & ? & ? & ? & ? & ? & ? & ?).
  by exists h, l.
Qed.

End Frontier.

End SpiderClaims.

Section SpiderExamples.

Import EmailScraper.

#[local] Abbreviation sample_step :=
  (crawl_step Sample.response_urljoin Sample.Request Sample.fetch).
#[local] Abbreviation sample_run :=
  (crawl_run Sample.response_urljoin Sample.Request Sample.fetch).
#[local] Abbreviation sample_parse :=
  (parse Sample.response_urljoin Sample.Request).
#[local] Abbreviation sample_parse_all :=
  (parse_all Sample.response_urljoin Sample.Request).

(** The seed page of the sample site: its link to B enters the frontier. *)
Lemma frontier_accepts_only_witness :
  frontier (crawl_start Sample.seed) = [(Sample.seed, 0)]
  /\ Sample.fetch Sample.seed
     = Some (mkResponse Sample.seed "Contact: info@example.com and SALES@Example.com" ["/b"])
  /\ (Sample.page_B, 1) ∈ frontier (sample_step 1 (crawl_start Sample.seed))
  /\ (Sample.page_B ∉ reserved (crawl_start Sample.seed))
  /\ exists href link,
       Sample.response_urljoin Sample.seed href = Ok link
       /\ PyStr.startswith "http" link = true
       /\ PyStr.contains "example.com" link = true
       /\ link <> Sample.seed
       /\ Sample.Request link = Ok Sample.page_B.
Proof.
  assert (frontier (sample_step 1 (crawl_start Sample.seed)) = [(Sample.page_B, 1)])
    as Hf by (vm_compute; reflexivity).
  assert ((Sample.page_B, 1) ∈ frontier (sample_step 1 (crawl_start Sample.seed)))
    as Hin by (rewrite Hf; left).
  split; [reflexivity|]. split; [reflexivity|]. split; [exact Hin|].
  destruct (frontier_accepts_only Sample.response_urljoin Sample.Request Sample.fetch 1
              (crawl_start Sample.seed) Sample.seed 0 []
              (mkResponse Sample.seed "Contact: info@example.com and SALES@Example.com" ["/b"])
              (Sample.page_B, 1) eq_refl eq_refl Hin)
    as [Hq|((href & link & Hh & Hr & Hs & Hc & _ & Hu & Hq) & Hres & _ & _)].
  - by apply elem_of_nil in Hq.
  - split; [exact Hres|]. exists href, link.
    apply list_elem_of_singleton in Hh. subst href.
    split; [exact Hr|]. split; [exact Hs|]. split; [exact Hc|].
    split; [exact Hu|exact Hq].
Defined.

(** C5.  Every URL the crawl has fetched, and every entry waiting in the
    frontier, has a discovery depth (0 for the seed, one more for each link
    followed) within the limit, whatever the pages and however long the
    crawl runs, so that no entry of depth limit + 1 is ever fetched; this
    holds for the limit of [custom_settings]; and with limit 1, a seed
    linking to B linking to C, the crawl fetches the seed and B, never C,
    and then has an empty frontier. *)
Theorem depth_invariant :
  (forall (urljoin : string -> string -> Result string)
          (Request : string -> Result string) (fetch : string -> option Response)
          (depth_limit : nat) (start_url : string) (steps : nat),
      let c := crawl_run urljoin Request fetch depth_limit steps
                 (crawl_start start_url) in
      Forall (fun e : FrontierEntry => e.2 <= depth_limit) (fetched c)
      /\ Forall (fun e : FrontierEntry => e.2 <= depth_limit) (frontier c)
      /\ forall u : string, (u, S depth_limit) ∉ fetched c)
  /\ (forall (urljoin : string -> string -> Result string)
             (Request : string -> Result string) (fetch : string -> option Response)
             (start_url : string) (steps : nat),
        Forall (fun e : FrontierEntry => e.2 <= 3)
          (fetched (crawl_run urljoin Request fetch DEPTH_LIMIT steps
                      (crawl_start start_url))))
  /\ (forall extra : nat,
        let c := crawl_run Sample.response_urljoin Sample.Request Sample.fetch 1
                   (2 + extra) (crawl_start Sample.seed) in
        fetched c = [(Sample.seed, 0); (Sample.page_B, 1)]
        /\ frontier c = []
        /\ forall depth : nat, (Sample.page_C, depth) ∉ fetched c).
Proof.
  split; [|split].
  - intros urljoin Request fetch depth_limit start_url steps c.
    destruct (crawl_depth_bounded urljoin Request fetch depth_limit start_url steps)
      as [Hf Hd].
    split; [done|]. split; [done|].
    intros u Hu. rewrite Forall_forall in Hd. apply Hd in Hu. simpl in Hu. lia.
  - intros urljoin Request fetch start_url steps.
    apply (crawl_depth_bounded urljoin Request fetch DEPTH_LIMIT start_url steps).
  - intros extra c.
    assert (fetched (sample_run 1 2 (crawl_start Sample.seed))
            = [(Sample.seed, 0); (Sample.page_B, 1)]) as Hf by (vm_compute; reflexivity).
    assert (frontier (sample_run 1 2 (crawl_start Sample.seed)) = [])
      as Hq by (vm_compute; reflexivity).
    subst c. rewrite crawl_run_add, (crawl_run_done _ _ _ _ _ _ Hq), Hf.
    split; [done|]. split; [done|].
    intros depth [[=]|[[=]|?%elem_of_nil]%elem_of_cons]%elem_of_cons. done.
Qed.

(** With a limit of 2 the same three pages are all fetched. *)
Example depth_limit_two_fetches_C :
  fetched (sample_run 2 3 (crawl_start Sample.seed))
  = [(Sample.seed, 0); (Sample.page_B, 1); (Sample.page_C, 2)].
Proof. vm_compute. reflexivity. Qed.

(** An exception raised in the loop ends it: the requests yielded before
    it stand, the links after it are not looked at, and on a keyword page
    the spider is as it was before the loop. *)
Example loop_ends_at_exception :
  (sample_parse (init Sample.seed) Sample.schemeless_page).1 = [Sample.page_B]
  /\ (sample_parse (init Sample.seed) Sample.bracket_page).1 = [Sample.page_B]
  /\ keyword_page Sample.schemeless_page = true
  /\ emails (sample_parse (init Sample.seed) Sample.schemeless_page).2
     = {[ "sales@example.com" ]}.
Proof.
  split; [vm_compute; reflexivity|]. split; [vm_compute; reflexivity|].
  split; [reflexivity|]. by vm_compute.
Qed.

(** C1, as stated, fails: a link for which [parse] yields a request is not
    marked visited when the request is yielded, and is requested again,
    from the same page and from another page, as long as no response with
    its URL has been parsed; and a page whose own URL holds an encoded
    character is requested from itself. *)
Lemma reservation_at_discovery_counterexample :
  (sample_parse_all (init Sample.seed) [Sample.first_page; Sample.second_page]).1
    = [ [Sample.page_C; Sample.page_C; Sample.page_B]; [Sample.page_C] ]
  /\ visited_pages (sample_parse (init Sample.seed) Sample.first_page).2
     = {[ Sample.seed ]}
  /\ (Sample.page_C ∉
       visited_pages (sample_parse (init Sample.seed) Sample.first_page).2)
  /\ (Sample.page_C ∉
       visited_pages
         (sample_parse_all (init Sample.seed)
            [Sample.first_page; Sample.second_page]).2)
  /\ (sample_parse (init Sample.seed) Sample.spaced_page).1
     = [url Sample.spaced_page].
Proof.
  split; [vm_compute; reflexivity|].
  split; [by vm_compute|].
  split; [apply (bool_decide_unpack _); vm_compute; exact I|].
  split; [apply (bool_decide_unpack _); vm_compute; exact I|].
  vm_compute. reflexivity.
Qed.

(** C2, as stated, fails: a link to another host is requested when the
    job's domain occurs in it, and enters the frontier; a relative link
    that does not start with ['/'] is not resolved at all; and a link to
    another site that only names the job's domain is requested too. *)
Lemma other_domain_followed_counterexample :
  allowed_domain (init Sample.seed) = "example.com"
  /\ hrefs Sample.home_page = ["https://sub.example.com/page"; "about.html"]
  /\ (sample_parse (init Sample.seed) Sample.home_page).1
     = ["https://sub.example.com/page"]
  /\ (accept_links DEPTH_LIMIT 0
        (sample_parse (init Sample.seed) Sample.home_page).1 {[ Sample.seed ]}).1
     = [("https://sub.example.com/page", 1)]
  /\ domain_of "https://sub.example.com/page" = "sub.example.com"
  /\ domain_of "https://sub.example.com/page" <> allowed_domain (init Sample.seed)
  /\ (sample_parse (init Sample.seed) Sample.referral_page).1
     = ["https://other.org/?from=example.com"]
  /\ domain_of "https://other.org/?from=example.com" = "other.org".
Proof.
  split; [reflexivity|]. split; [reflexivity|]. split; [vm_compute; reflexivity|].
  split; [vm_compute; reflexivity|]. split; [reflexivity|].
  split; [vm_compute; discriminate|].
  split; [vm_compute; reflexivity|reflexivity].
Qed.

End SpiderExamples.

(** ** The batch of sites *)

Section BatchFacts.

Import EmailScraper.

Variable chrome : string -> Browser.
Variable crawl : string -> Result (gset string).
Variable duration : string -> Z.

#[local] Abbreviation scrapy := (run_scrapy_for_website crawl).
#[local] Abbreviation hybrid := (scrape_with_hybrid chrome crawl duration).
#[local] Abbreviation one := (scrape_one chrome crawl duration).
#[local] Abbreviation loop := (scrape_loop chrome crawl duration).
#[local] Abbreviation row := (row_of duration).

(** [collect_emails] requires [item] and [response], which the signal does
    not provide: the handler is never run. *)
Lemma collect_emails_not_called :
  handler_called collect_emails_parameters spider_closed_arguments = false.
Proof. reflexivity. Qed.

(** What a Scrapy job does in each state of the process. *)
Lemma run_scrapy_for_website_cases (url : string) (w : World) :
  (reactor_ran w = true /\ scrapy url w = (Raise ReactorNotRestartable, w))
  \/ (reactor_ran w = false /\ exists e, crawl url = Raise e
      /\ scrapy url w = (Raise e, w))
  \/ (reactor_ran w = false /\ (exists found, crawl url = Ok found)
      /\ scrapy url w = (Ok ∅, logging_error handler_error (reactor_run w))).
Proof.
  unfold run_scrapy_for_website. destruct (reactor_ran w); [by left|right].
  destruct (crawl url) as [found|e]; [right|left].
  - rewrite collect_emails_not_called. split; [done|]. split; [by exists found|done].
  - split; [done|]. by exists e.
Qed.

Lemma scrape_with_hybrid_now (url : string) (use_selenium : bool) (w : World) :
  now (hybrid url use_selenium w).2 = (now w + duration url)%Z.
Proof.
  unfold scrape_with_hybrid, scrape_with_selenium. destruct use_selenium.
  - by destruct (chrome url).
  - destruct (run_scrapy_for_website_cases url w)
      as [[_ ->]|[(_ & e & _ & ->)|(_ & _ & ->)]]; done.
Qed.

(** A Scrapy job that raises, and one that returns. *)
Lemma scrape_one_scrapy_raises (url : string) (w : World) :
  reactor_ran w = true \/ (exists e, crawl url = Raise e) ->
  (one url false w).1 = mkRow url "Error scraping website" NA
  /\ reactor_ran (one url false w).2 = reactor_ran w.
Proof.
  intros H. unfold scrape_one, scrape_with_hybrid.
  destruct (run_scrapy_for_website_cases url w)
    as [[_ ->]|[(_ & e & _ & ->)|(Hw & [found Hf] & _)]]; [done|done|].
  destruct H as [H|[e He]]; congruence.
Qed.

Lemma scrape_one_scrapy_returns (url : string) (w : World) :
  reactor_ran w = false -> (exists found, crawl url = Ok found) ->
  (one url false w).1 = mkRow url "" (Seconds (duration url))
  /\ reactor_ran (one url false w).2 = true.
Proof.
  intros Hw [found Hf]. unfold scrape_one, scrape_with_hybrid.
  destruct (run_scrapy_for_website_cases url w)
    as [[? _]|[(_ & e & ? & _)|(_ & _ & ->)]]; [congruence|congruence|].
  cbn -[Z.add Z.sub]. split; [|done]. do 2 f_equal. lia.
Qed.

Lemma scrape_with_hybrid_browser (url : string) (w : World) :
  (hybrid url true w).1 = browser_outcome chrome url.
Proof.
  unfold scrape_with_hybrid, scrape_with_selenium, browser_outcome.
  by destruct (chrome url).
Qed.

Lemma scrape_one_row (url : string) (use_selenium : bool) (w : World) :
  (one url use_selenium w).1 = row url (hybrid url use_selenium w).1.
Proof.
  unfold scrape_one, row_of.
  pose proof (scrape_with_hybrid_now url use_selenium w) as Ht.
  destruct (hybrid url use_selenium w) as [[emails|e] w']; simpl in *; [|done].
  rewrite Ht. do 2 f_equal. lia.
Qed.

Lemma Website_row_of (url : string) (r : Result (list string)) :
  Website (row url r) = url.
Proof. by destruct r. Qed.

(** A job that raises leaves the description of its error in the log. *)
Lemma scrape_one_logs (url : string) (use_selenium : bool) (w : World) (e : string) :
  (hybrid url use_selenium w).1 = Raise e ->
  log (one url use_selenium w).2
  = (log (hybrid url use_selenium w).2
       ++ [("Failed to scrape " ++ url ++ ": " ++ e)%string])%list.
Proof.
  intros He. unfold scrape_one.
  destruct (hybrid url use_selenium w) as [r w']. simpl in *. by subst r.
Qed.

(** The log only grows. *)
Lemma scrape_one_log_grows (url : string) (use_selenium : bool) (w : World) :
  exists lines, log (one url use_selenium w).2 = (log w ++ lines)%list.
Proof.
  unfold scrape_one, scrape_with_hybrid, scrape_with_selenium. destruct use_selenium.
  - destruct (chrome url); simpl;
      [by eexists|by eexists|exists []; by rewrite app_nil_r].
  - destruct (run_scrapy_for_website_cases url w)
      as [[_ ->]|[(_ & e & _ & ->)|(_ & _ & ->)]]; simpl; by eexists.
Qed.

Lemma scrape_loop_acc (urls : list string) (use_selenium : bool)
    (results : list Row) (w : World) :
  loop urls use_selenium results w
  = ((results ++ (loop urls use_selenium [] w).1)%list,
     (loop urls use_selenium [] w).2).
Proof.
  revert results w. induction urls as [|url rest IH]; intros results w; simpl.
  - by rewrite app_nil_r.
  - destruct (one url use_selenium w) as [r w'].
    rewrite (IH (results ++ [r])%list), (IH [r]). simpl.
    by rewrite <- (assoc_L (++)).
Qed.

Lemma scrape_loop_cons (url : string) (rest : list string) (use_selenium : bool)
    (w : World) :
  loop (url :: rest) use_selenium [] w
  = ((one url use_selenium w).1
       :: (loop rest use_selenium [] (one url use_selenium w).2).1,
     (loop rest use_selenium [] (one url use_selenium w).2).2).
Proof.
  cbn [scrape_loop]. destruct (one url use_selenium w) as [r w']. simpl.
  by rewrite scrape_loop_acc.
Qed.

(** The jobs of a batch are run one after the other: the rows of a batch
    are those of its first part followed by those of the rest, run in the
    process as the first part left it. *)
Lemma scrape_loop_app (before after : list string) (use_selenium : bool) (w : World) :
  loop (before ++ after) use_selenium [] w
  = (((loop before use_selenium [] w).1
        ++ (loop after use_selenium [] (loop before use_selenium [] w).2).1)%list,
     (loop after use_selenium [] (loop before use_selenium [] w).2).2).
Proof.
  revert w. induction before as [|url rest IH]; intros w.
  - simpl. by destruct (loop after use_selenium [] w).
  - change ((url :: rest) ++ after)%list with (url :: (rest ++ after))%list.
    rewrite !scrape_loop_cons, IH. done.
Qed.

Lemma scrape_loop_websites (urls : list string) (use_selenium : bool) (w : World) :
  Website <$> (loop urls use_selenium [] w).1 = urls.
Proof.
  revert w. induction urls as [|url rest IH]; intros w; [done|].
  rewrite scrape_loop_cons. csimpl.
  by rewrite IH, scrape_one_row, Website_row_of.
Qed.

Lemma scrape_loop_length (urls : list string) (use_selenium : bool) (w : World) :
  length (loop urls use_selenium [] w).1 = length urls.
Proof.
  rewrite <- (scrape_loop_websites urls use_selenium w) at 2.
  by rewrite length_fmap.
Qed.

Lemma scrape_loop_log_grows (urls : list string) (use_selenium : bool) (w : World) :
  exists lines, log (loop urls use_selenium [] w).2 = (log w ++ lines)%list.
Proof.
  revert w. induction urls as [|url rest IH]; intros w.
  - exists []. simpl. by rewrite app_nil_r.
  - rewrite scrape_loop_cons. cbn [snd].
    destruct (scrape_one_log_grows url use_selenium w) as [l1 E1].
    destruct (IH (one url use_selenium w).2) as [l2 E2].
    exists (l1 ++ l2)%list. by rewrite E2, E1, <- (assoc_L (++)).
Qed.

(** In the browser the outcome of a job depends on its URL alone. *)
Lemma scrape_loop_browser (urls : list string) (w : World) :
  (loop urls true [] w).1 = (fun url => row url (browser_outcome chrome url)) <$> urls.
Proof.
  revert w. induction urls as [|url rest IH]; intros w; [done|].
  rewrite scrape_loop_cons. csimpl.
  by rewrite IH, scrape_one_row, scrape_with_hybrid_browser.
Qed.

Lemma scrape_multiple_websites_websites (urls : list string)
    (use_selenium : bool) (w : World) :
  Website <$>
    (scrape_multiple_websites chrome crawl duration urls use_selenium w).1
  = urls.
Proof. apply scrape_loop_websites. Qed.

(** The row of a job inside a batch, and its line in the final log. *)
Lemma scrape_multiple_websites_job (before after : list string) (url : string)
    (use_selenium : bool) (w : World) :
  let batch := scrape_multiple_websites chrome crawl duration in
  let started := (batch before use_selenium w).2 in
  let r := (hybrid url use_selenium started).1 in
  (batch (before ++ url :: after)%list use_selenium w).1 !! length before
    = Some (row url r)
  /\ forall e, r = Raise e ->
       ("Failed to scrape " ++ url ++ ": " ++ e)
         ∈ log (batch (before ++ url :: after)%list use_selenium w).2.
Proof.
  unfold scrape_multiple_websites. cbn zeta.
  rewrite scrape_loop_app, scrape_loop_cons. cbn [fst snd].
  set (started := (loop before use_selenium [] w).2). split.
  - rewrite lookup_app_r by (by rewrite scrape_loop_length).
    rewrite scrape_loop_length, Nat.sub_diag. simpl. by rewrite scrape_one_row.
  - intros e He.
    destruct (scrape_loop_log_grows after use_selenium (one url use_selenium started).2)
      as [lines ->].
    rewrite (scrape_one_logs _ _ _ _ He).
    apply elem_of_app. left. apply elem_of_app. right. left.
Qed.

End BatchFacts.

Section BatchClaims.

Import EmailScraper.

(** C4, as the code has it.  The table has one row per seed, in order: the
    jobs are run one after the other, whatever the jobs before did, and the
    row of a job records what its own scraper returned or raised when it
    ran.  A job whose scraper raises (the browser does not start, say) gets
    the fixed text ['Error scraping website'] as its emails and ['N/A'] as
    its time, and the description of the error goes to the log.  A job that
    returns gets its joined emails and its elapsed time.  In the browser
    the outcome of a job depends on its own URL alone: a driver that does
    not start raises; a page that does not load after the driver has
    started (a timeout included) gives an ordinary row with no emails and
    its elapsed time; a page that loads gives the emails of its source. *)
Theorem failed_job_row (chrome : string -> Browser)
    (crawl : string -> Result (gset string))
    (duration : string -> Z) (urls : list string) (use_selenium : bool) (w : World) :
  Website <$> (scrape_multiple_websites chrome crawl duration urls use_selenium w).1
    = urls
  /\ (forall (before after : list string) (url : string),
        urls = (before ++ url :: after)%list ->
        let started :=
          (scrape_multiple_websites chrome crawl duration before use_selenium w).2 in
        let r := (scrape_with_hybrid chrome crawl duration url use_selenium started).1 in
        (scrape_multiple_websites chrome crawl duration urls use_selenium w).1
          !! length before = Some (row_of duration url r)
        /\ (forall e, r = Raise e ->
              row_of duration url r = mkRow url "Error scraping website" NA
              /\ ("Failed to scrape " ++ url ++ ": " ++ e)
                   ∈ log (scrape_multiple_websites chrome crawl duration
                            urls use_selenium w).2)
        /\ (forall emails, r = Ok emails ->
              row_of duration url r
              = mkRow url (PyStr.join ", " emails) (Seconds (duration url))))
  /\ (scrape_multiple_websites chrome crawl duration urls true w).1
     = (fun url => row_of duration url (browser_outcome chrome url)) <$> urls
  /\ (forall url e,
        chrome url = LaunchFails e ->
        row_of duration url (browser_outcome chrome url)
        = mkRow url "Error scraping website" NA)
  /\ (forall url e,
        chrome url = GetFails e ->
        row_of duration url (browser_outcome chrome url)
        = mkRow url "" (Seconds (duration url)))
  /\ (forall url html_content,
        chrome url = Loaded html_content ->
        row_of duration url (browser_outcome chrome url)
        = mkRow url (PyStr.join ", " (extract_emails html_content))
            (Seconds (duration url))).
Proof.
  split; [apply scrape_multiple_websites_websites|].
  split; [|split; [apply scrape_loop_browser|]].
  - intros before after url -> started r.
    destruct (scrape_multiple_websites_job chrome crawl duration before after url
                use_selenium w) as [Hrow Hlog].
    split; [exact Hrow|]. split.
    + intros e He. split; [by rewrite He|by apply Hlog].
    + intros emails He. by rewrite He.
  - split; [|split]; intros url x Hx; unfold browser_outcome; by rewrite Hx.
Qed.

(** C4, as stated, fails: the row of a job whose browser did not start
    holds the fixed text, not the description of the error, and the row of
    a job that timed out is an ordinary row with a time. *)
Lemma error_row_counterexample :
  (scrape_multiple_websites Sample.chrome Sample.crawl (fun _ => 312%Z)
     Sample.batch true Sample.midnight).1
  = [ mkRow "https://a.example/" "Error scraping website" NA;
      mkRow "https://b.example/" "" (Seconds 312);
      mkRow "https://c.example/" "info@c.example" (Seconds 312) ]
  /\ Sample.chrome "https://a.example/" = LaunchFails "session not created"
  /\ Sample.chrome "https://b.example/" = GetFails "timeout: page load".
Proof.
  split; [vm_compute; reflexivity|]. split; reflexivity.
Qed.

(** X18.  The rows of a batch run with the Scrapy fetcher.  Once the
    reactor of the process has run, every job raises and gets the error
    row, and so does every job whose crawl raises before the reactor runs.
    The first job whose crawl runs gets a row with its elapsed time and an
    empty emails cell, whatever the spider found: [collect_emails] is never
    run, so [emails] is returned as it was created.  Every job after that
    one gets the error row. *)
Theorem scrapy_rows (chrome : string -> Browser)
    (crawl : string -> Result (gset string)) (duration : string -> Z)
    (urls : list string) (w : World) :
  let error_row := fun url : string => mkRow url "Error scraping website" NA in
  let rows := (scrape_multiple_websites chrome crawl duration urls false w).1 in
  (reactor_ran w = true \/ (forall url, url ∈ urls -> exists e, crawl url = Raise e) ->
   rows = error_row <$> urls)
  /\ (forall (before after : list string) (url : string),
        urls = (before ++ url :: after)%list ->
        reactor_ran w = false ->
        (forall u, u ∈ before -> exists e, crawl u = Raise e) ->
        (exists found, crawl url = Ok found) ->
        rows = ((error_row <$> before)
                  ++ mkRow url "" (Seconds (duration url)) :: (error_row <$> after))%list).
Proof.
  cbn zeta. unfold scrape_multiple_websites.
  assert (forall l w',
            reactor_ran w' = true \/ (forall u, u ∈ l -> exists e, crawl u = Raise e) ->
            (scrape_loop chrome crawl duration l false [] w').1
            = (fun url => mkRow url "Error scraping website" NA) <$> l
            /\ reactor_ran (scrape_loop chrome crawl duration l false [] w').2
               = reactor_ran w') as Hraise.
  { induction l as [|u l IH]; intros w' H; [done|].
    rewrite scrape_loop_cons. cbn [fst snd]. csimpl.
    destruct (scrape_one_scrapy_raises chrome crawl duration u w') as [-> Hr].
    { destruct H as [H|H]; [by left|right]. apply H. left. }
    destruct (IH (scrape_one chrome crawl duration u false w').2) as [-> ->]; [|done].
    rewrite Hr. destruct H as [H|H]; [by left|right]. intros x ?. apply H. by right. }
  split.
  - intros H. by apply Hraise.
  - intros before after url -> Hw Hb Hf.
    rewrite scrape_loop_app, scrape_loop_cons. cbn [fst snd].
    destruct (Hraise before w (or_intror Hb)) as [-> Hw']. rewrite Hw in Hw'.
    destruct (scrape_one_scrapy_returns chrome crawl duration url _ Hw' Hf) as [-> Hr].
    by destruct (Hraise after _ (or_introl Hr)) as [-> _].
Qed.

Lemma scrapy_rows_witness :
  (scrape_multiple_websites Sample.chrome Sample.crawl (fun _ => 312%Z)
     ["https://a.example/"; "https://b.example/"] false Sample.midnight).1
  = [ mkRow "https://a.example/" "" (Seconds 312);
      mkRow "https://b.example/" "Error scraping website" NA ].
Proof.
  destruct (scrapy_rows Sample.chrome Sample.crawl (fun _ => 312%Z)
              ["https://a.example/"; "https://b.example/"] Sample.midnight)
    as [_ H].
  apply (H [] ["https://b.example/"] "https://a.example/" eq_refl eq_refl).
  - by intros u ?%elem_of_nil.
  - by eexists.
Defined.

(** With the Scrapy fetcher the reactor of the process runs for the first
    job only, and the emails of the spider do not reach the table. *)
Example scrapy_batch :
  (scrape_multiple_websites Sample.chrome Sample.crawl (fun _ => 312%Z)
     ["https://a.example/"; "https://a.example/"] false Sample.midnight).1
  = [ mkRow "https://a.example/" "" (Seconds 312);
      mkRow "https://a.example/" "Error scraping website" NA ]
  /\ log (scrape_multiple_websites Sample.chrome Sample.crawl (fun _ => 312%Z)
            ["https://a.example/"; "https://a.example/"] false Sample.midnight).2
     = [ "Error caught on signal handler";
         "Failed to scrape https://a.example/: ReactorNotRestartable" ].
Proof. split; vm_compute; reflexivity. Qed.

End BatchClaims.

(** ** The outgoing-link extractor *)

Section LinkFacts.

Import Linkdin.

Lemma string_app_inv_tail (a b c : string) : a ++ c = b ++ c -> a = b.
Proof.
  intros H. apply (f_equal list_ascii_of_string) in H.
  rewrite !list_ascii_of_string_app in H. apply app_inv_tail in H.
  apply (f_equal string_of_list_ascii) in H.
  by rewrite !string_of_list_ascii_of_string in H.
Qed.

Lemma entry_of_inj (d1 d2 : string) : entry_of d1 = entry_of d2 -> d1 = d2.
Proof.
  unfold entry_of. intros H. apply String.app_inj in H.
  by apply string_app_inv_tail in H.
Qed.

Lemma any_false {A} (p : A -> bool) (l : list A) :
  PyStr.any p l = false <-> forall x, x ∈ l -> p x = false.
Proof.
  unfold PyStr.any. induction l as [|a l IH]; simpl.
  - split; [|done]. by intros _ x ?%elem_of_nil.
  - rewrite orb_false_iff, IH. split.
    + intros [Ha Hl] x [-> | ?]%elem_of_cons; [done|by apply Hl].
    + intros H. split; [apply H; left|]. intros x ?. apply H. by right.
Qed.

Lemma is_outgoing_true (main_domain domain full_url : string) :
  is_outgoing main_domain domain full_url = true <->
  domain <> ""
  /\ PyStr.contains main_domain domain = false
  /\ (forall excluded, excluded ∈ EXCLUDED_WEBSITES ->
        PyStr.contains excluded domain = false)
  /\ (forall pattern, pattern ∈ EXCLUDED_PATTERNS ->
        PyStr.contains pattern full_url = false).
Proof.
  unfold is_outgoing. rewrite !andb_true_iff, !negb_true_iff, !any_false.
  rewrite String.eqb_neq. tauto.
Qed.

Lemma prefix_String (a b : ascii) (p s : string) :
  String.prefix (String a p) (String b s)
  = if ascii_dec a b then String.prefix p s else false.
Proof. reflexivity. Qed.

Lemma prefix_nil (s : string) : String.prefix "" s = true.
Proof. by destruct s. Qed.

Lemma prefix_length (p s : string) :
  String.prefix p s = true -> String.length p <= String.length s.
Proof.
  intros H. apply prefix_inv in H as [rest ->].
  induction p; simpl; lia.
Qed.

Lemma length_append_dot (p : string) :
  String.length (p ++ ".") = String.length p + 1.
Proof. induction p; simpl; lia. Qed.

(** An occurrence of ['www.'] that starts before a dot ends at or before
    that dot. *)
Lemma prefix_www_dot (p n : string) :
  String.prefix "www." (p ++ String "." n) = String.prefix "www." (p ++ ".").
Proof.
  destruct p as [|c1 [|c2 [|c3 [|c4 p]]]]; cbn [String.append];
    repeat first
      [ reflexivity
      | rewrite !prefix_nil
      | rewrite !prefix_String
      | match goal with
        | |- context [ascii_dec ?a ?b] =>
            destruct (ascii_dec a b) as [?|?]; try discriminate
        end ].
Qed.

Lemma replace_www_dot (p n : string) (skip : nat) :
  skip <= String.length p + 1 ->
  PyStr.replace_go "www." "" skip (p ++ String "." n)
  = PyStr.replace_go "www." "" skip (p ++ ".") ++ PyStr.replace_go "www." "" 0 n.
Proof.
  revert skip. induction p as [|c p IH]; intros skip Hs.
  - destruct skip as [|[|]]; simpl in *; try lia; reflexivity.
  - destruct skip as [|k].
    + cbn [String.append PyStr.replace_go].
      change (String c (p ++ String "." n)) with (String c p ++ String "." n).
      change (String c (p ++ ".")) with (String c p ++ ".").
      rewrite prefix_www_dot.
      destruct (String.prefix "www." (String c p ++ ".")) eqn:E.
      * apply prefix_length in E. rewrite length_append_dot in E. simpl in E.
        simpl. apply IH. lia.
      * simpl. f_equal. apply IH. lia.
    + simpl. apply IH. simpl in Hs. lia.
Qed.

(** The domain of a subdomain ends with the domain of its parent. *)
Lemma without_www_subdomain (label host : string) :
  without_www (label ++ "." ++ host)
  = without_www (label ++ ".") ++ without_www host.
Proof. unfold without_www, PyStr.replace. apply replace_www_dot. lia. Qed.

Lemma contains_subdomain (label host : string) :
  PyStr.contains (without_www host) (without_www (label ++ "." ++ host)) = true.
Proof.
  rewrite without_www_subdomain.
  rewrite <- (string_app_nil_r (without_www host)) at 2. apply contains_app.
Qed.

Variable urljoin : string -> string -> string.
Variable netloc : string -> string.
Variable malformed : string -> string -> bool.
Variable anchor_tags_of : string -> Result (list string).

#[local] Abbreviation links_from :=
  (extract_links_from_page urljoin netloc malformed anchor_tags_of).

Lemma elem_of_anchors_read (url : string) (anchor_tags : list string) (link : string) :
  link ∈ anchors_read malformed url anchor_tags ->
  link ∈ anchor_tags /\ malformed url link = false.
Proof.
  induction anchor_tags as [|l rest IH]; simpl; [by intros ?%elem_of_nil|].
  destruct (malformed url l) eqn:E; [by intros ?%elem_of_nil|].
  intros [-> |Hin]%elem_of_cons; [split; [left|done]|].
  destruct (IH Hin). split; [by right|done].
Qed.

Lemma anchors_read_all (url : string) (anchor_tags : list string) :
  (forall link, link ∈ anchor_tags -> malformed url link = false) ->
  anchors_read malformed url anchor_tags = anchor_tags.
Proof.
  induction anchor_tags as [|l rest IH]; intros H; simpl; [done|].
  rewrite (H l) by left. f_equal. apply IH. intros link ?. apply H. by right.
Qed.

Lemma elem_of_collect_links (url main_domain : string) (anchor_tags : list string)
    (outgoing_links : gset string) (x : string) :
  x ∈ collect_links urljoin netloc malformed url main_domain anchor_tags outgoing_links
  <->
  x ∈ outgoing_links
  \/ exists link, link ∈ anchors_read malformed url anchor_tags
       /\ is_outgoing main_domain (without_www (netloc (urljoin url link)))
            (urljoin url link) = true
       /\ x = entry_of (without_www (netloc (urljoin url link))).
Proof.
  revert outgoing_links. induction anchor_tags as [|link rest IH]; intros acc; simpl.
  - split; [by left|]. intros [?|(? & ?%elem_of_nil & _)]; done.
  - destruct (malformed url link).
    { split; [by left|]. intros [?|(? & ?%elem_of_nil & _)]; done. }
    destruct (is_outgoing _ _ _) eqn:E; rewrite IH.
    + rewrite elem_of_union, elem_of_singleton. split.
      * intros [[?| ->]|(l & ? & ? & ?)]; [by left| |].
        -- right. exists link. split; [left|done].
        -- right. exists l. split; [by right|done].
      * intros [?|(l & [-> | ?]%elem_of_cons & ? & ?)]; [by left; left|by left; right|].
        right. by exists l.
    + split.
      * intros [?|(l & ? & ? & ?)]; [by left|]. right. exists l. split; [by right|done].
      * intros [?|(l & [-> | ?]%elem_of_cons & ? & ?)]; [by left|congruence|].
        right. by exists l.
Qed.

Lemma elem_of_extract_links (url x : string) :
  x ∈ links_from url <->
  exists anchor_tags link,
    anchor_tags_of url = Ok anchor_tags
    /\ link ∈ anchors_read malformed url anchor_tags
    /\ is_outgoing (without_www (netloc url))
         (without_www (netloc (urljoin url link))) (urljoin url link) = true
    /\ x = entry_of (without_www (netloc (urljoin url link))).
Proof.
  unfold extract_links_from_page. destruct (anchor_tags_of url) as [tags|e].
  - rewrite elem_of_elements, elem_of_collect_links. split.
    + intros [?%elem_of_empty|(l & ? & ? & ?)]; [done|]. by exists tags, l.
    + intros (t & l & [= <-] & ? & ? & ?). right. by exists l.
  - rewrite elem_of_elements. split; [by intros ?%elem_of_empty|].
    by intros (? & ? & ? & _).
Qed.

Lemma NoDup_extract_links (url : string) : NoDup (links_from url).
Proof.
  unfold extract_links_from_page.
  destruct (anchor_tags_of url); apply NoDup_elements.
Qed.

(** X17.  An entry of the result comes from an anchor that the loop got to,
    whose domain, the network location of the absolute URL with every
    occurrence of ['www.'] removed, is not empty, differs from the page's
    own domain (which does not even occur in it), contains no entry of the
    exclusion list (so equals none), and whose absolute URL contains no
    excluded fragment; the entry is ['https://{domain}/'] for that domain;
    the result has no duplicates, and two entries for the same domain are
    the same entry. *)
Theorem outgoing_links_only (url entry : string) :
  entry ∈ links_from url ->
  (exists anchor_tags link,
     anchor_tags_of url = Ok anchor_tags /\ link ∈ anchor_tags
     /\ malformed url link = false
     /\ let full_url := urljoin url link in
        let domain := without_www (netloc full_url) in
        let main_domain := without_www (netloc url) in
        entry = entry_of domain
        /\ domain <> ""
        /\ domain <> main_domain
        /\ PyStr.contains main_domain domain = false
        /\ (forall excluded, excluded ∈ EXCLUDED_WEBSITES ->
              domain <> excluded /\ PyStr.contains excluded domain = false)
        /\ (forall pattern, pattern ∈ EXCLUDED_PATTERNS ->
              PyStr.contains pattern full_url = false))
  /\ NoDup (links_from url)
  /\ (forall d1 d2 : string, entry_of d1 = entry_of d2 -> d1 = d2).
Proof.
  intros H. split; [|split; [apply NoDup_extract_links|apply entry_of_inj]].
  apply elem_of_extract_links in H as (tags & link & Ht & Hl & Ho & ->).
  apply elem_of_anchors_read in Hl as [Hl Hm].
  apply is_outgoing_true in Ho as (Hne & Hmd & He & Hp).
  exists tags, link. split; [done|]. split; [done|]. split; [done|]. simpl.
  split; [done|]. split; [done|]. split.
  { intros E. rewrite E, contains_refl in Hmd. done. }
  split; [done|]. split; [|done].
  intros excluded Hin. split; [|by apply He].
  intros E. specialize (He _ Hin). rewrite E, contains_refl in He. done.
Qed.

(** C10.  Exclusion is by containment: a domain in which the page's own
    domain occurs, or in which an entry of the exclusion list occurs, has
    no entry in the result, and an anchor with such a domain fails the
    test of the loop; in particular an anchor whose host is a subdomain of
    the page's host is excluded. *)
Theorem excluded_by_containment (url domain : string) :
  PyStr.contains (without_www (netloc url)) domain = true
  \/ (exists excluded, excluded ∈ EXCLUDED_WEBSITES
        /\ PyStr.contains excluded domain = true) ->
  (entry_of domain ∉ extract_links_from_page urljoin netloc malformed anchor_tags_of url)
  /\ (forall link : string,
        without_www (netloc (urljoin url link)) = domain ->
        is_outgoing (without_www (netloc url)) domain (urljoin url link) = false)
  /\ (forall link label : string,
        netloc (urljoin url link) = label ++ "." ++ netloc url ->
        is_outgoing (without_www (netloc url))
          (without_www (netloc (urljoin url link))) (urljoin url link) = false
        /\ entry_of (without_www (netloc (urljoin url link)))
             ∉ extract_links_from_page urljoin netloc malformed anchor_tags_of url).
Proof.
  intros H.
  assert (forall d full,
            PyStr.contains (without_www (netloc url)) d = true
            \/ (exists excluded, excluded ∈ EXCLUDED_WEBSITES
                  /\ PyStr.contains excluded d = true) ->
            is_outgoing (without_www (netloc url)) d full = false) as Hno.
  { intros d full Hd. apply not_true_is_false.
    intros (_ & Hm & He & _)%is_outgoing_true.
    destruct Hd as [Hd|(x & Hx & Hd)]; [congruence|].
    rewrite (He _ Hx) in Hd. done. }
  assert (forall d,
            PyStr.contains (without_www (netloc url)) d = true
            \/ (exists excluded, excluded ∈ EXCLUDED_WEBSITES
                  /\ PyStr.contains excluded d = true) ->
            entry_of d ∉ extract_links_from_page urljoin netloc malformed anchor_tags_of url)
    as Hout.
  { intros d Hd (tags & link & _ & _ & Ho & E)%elem_of_extract_links.
    apply entry_of_inj in E. rewrite <- E, (Hno _ _ Hd) in Ho. done. }
  split; [by apply Hout|]. split.
  - intros link <-. by apply Hno.
  - intros link label E. rewrite E.
    split; [apply Hno|apply Hout]; left; apply contains_subdomain.
Qed.

End LinkFacts.

Section LinkExamples.

Import Linkdin.

#[local] Abbreviation links_of :=
  (extract_links_from_page Sample.urljoin Sample.netloc Sample.malformed
     Sample.anchor_tags_of).

(** The partner's domain is the one outgoing link of the blog page. *)
Lemma outgoing_links_only_witness :
  "https://partner.org/" ∈ links_of "https://blog.net/"
  /\ "partner.org" <> without_www (Sample.netloc "https://blog.net/")
  /\ NoDup (links_of "https://blog.net/").
Proof.
  assert ("https://partner.org/" ∈ links_of "https://blog.net/") as Hin.
  { apply (bool_decide_unpack _). vm_compute. exact I. }
  split; [exact Hin|].
  destruct (outgoing_links_only Sample.urljoin Sample.netloc Sample.malformed
              Sample.anchor_tags_of "https://blog.net/" "https://partner.org/" Hin)
    as [(tags & link & _ & _ & _ & E & _ & Hne & _) [Hnd _]].
  split; [|exact Hnd].
  change "https://partner.org/" with (entry_of "partner.org") in E.
  apply entry_of_inj in E. rewrite <- E in Hne. exact Hne.
Defined.

(** A mirror whose host contains the blog's domain, and a host that
    contains an excluded site, are both left out. *)
Lemma excluded_by_containment_witness :
  PyStr.contains (without_www (Sample.netloc "https://blog.net/")) "blog.net.mirror.io" = true
  /\ ("https://blog.net.mirror.io/" ∉ links_of "https://blog.net/")
  /\ ("https://m.facebook.com/" ∉ links_of "https://blog.net/").
Proof.
  split; [reflexivity|]. split.
  - apply (excluded_by_containment Sample.urljoin Sample.netloc Sample.malformed
             Sample.anchor_tags_of "https://blog.net/" "blog.net.mirror.io").
    left. reflexivity.
  - apply (excluded_by_containment Sample.urljoin Sample.netloc Sample.malformed
             Sample.anchor_tags_of "https://blog.net/" "m.facebook.com").
    right. exists "facebook.com". split; [left|reflexivity].
Defined.

(** Scenario B: an in-domain link, a link to an excluded site and a link
    with an excluded fragment give no outgoing link; and of the three
    anchors of the other page only the partner's domain is kept. *)
Example scenario_B :
  links_of Sample.seed = []
  /\ links_of "https://blog.net/" = ["https://partner.org/"]
  /\ links_of "https://unreachable.example/" = [].
Proof. repeat split; vm_compute; reflexivity. Qed.

(** C3.  The code at the inputs where it leaves the claim: on a page with
    the one anchor [http://awww.gov/] the extractor records
    [https://agov/], although the host has no leading ['www.'] to strip
    and ['.gov'], an entry of the exclusion list, occurs in it; and on a
    page with the one anchor [https://shop.www.foo.com/deals] it records
    [https://shop.foo.com/], the name of another host.  With the leading
    ['www.'] stripped, as the claim has it, the first host is excluded and
    the second is recorded under its own name. *)
Lemma www_removed_inside_host :
  Sample.anchor_tags_of "https://news.org/" = Ok ["http://awww.gov/"]
  /\ links_of "https://news.org/" = ["https://agov/"]
  /\ strip_leading_www (Sample.netloc "http://awww.gov/") = "awww.gov"
  /\ PyStr.contains ".gov" "awww.gov" = true
  /\ is_outgoing "news.org" (strip_leading_www (Sample.netloc "http://awww.gov/"))
       "http://awww.gov/" = false
  /\ Sample.anchor_tags_of Sample.site = Ok ["https://shop.www.foo.com/deals"]
  /\ links_of Sample.site = ["https://shop.foo.com/"]
  /\ entry_of (strip_leading_www (Sample.netloc "https://shop.www.foo.com/deals"))
     = "https://shop.www.foo.com/".
Proof. repeat split; vm_compute; reflexivity. Qed.

End LinkExamples.

(** ** The order of the result table *)

Section PoolFacts.

Import Linkdin.

Variable job : string -> Result (list string).

Lemma run_pool_lookup (urls : list string) (schedule : list nat) (i : nat) :
  run_pool job urls schedule !! i
  = match urls !! i with
    | Some url => if decide (i ∈ schedule) then Some (job url) else None
    | None => None
    end.
Proof.
  unfold run_pool.
  assert (forall done : gmap nat (Result (list string)),
    foldl (fun done i => match urls !! i with
                         | Some url => <[ i := job url ]> done
                         | None => done
                         end) done schedule !! i
    = match urls !! i with
      | Some url => if decide (i ∈ schedule) then Some (job url) else done !! i
      | None => done !! i
      end) as H.
  { induction schedule as [|j schedule IH]; intros done; simpl.
    - destruct (urls !! i); [|done].
      destruct (decide (i ∈ [])) as [?%elem_of_nil|]; done.
    - rewrite IH. destruct (urls !! i) as [url|] eqn:Ei.
      + destruct (decide (i ∈ schedule)) as [Hin|Hnin].
        * destruct (decide (i ∈ j :: schedule)) as [|Hn]; [done|].
          exfalso. apply Hn. by right.
        * destruct (decide (i = j)) as [<-|Hne].
          -- rewrite Ei, lookup_insert_eq.
             destruct (decide (i ∈ i :: schedule)) as [|Hn]; [done|].
             exfalso. apply Hn. left.
          -- destruct (decide (i ∈ j :: schedule)) as [[?|?]%elem_of_cons|]; [done|done|].
             destruct (urls !! j); [by rewrite lookup_insert_ne|done].
      + destruct (urls !! j) eqn:Ej; [|done].
        rewrite lookup_insert_ne; [done|]. intros <-. congruence. }
  rewrite H, lookup_empty. done.
Qed.

Lemma gather_assemble (done : gmap nat (Result (list string))) (i0 : nat)
    (urls : list string) (all_outgoing_links : Dict) :
  (forall k url, urls !! k = Some url -> done !! (i0 + k) = Some (job url)) ->
  gather done i0 urls all_outgoing_links = Some (assemble job urls all_outgoing_links).
Proof.
  revert i0 all_outgoing_links.
  induction urls as [|url rest IH]; intros i0 acc H; simpl; [done|].
  pose proof (H 0 url eq_refl) as H0. rewrite Nat.add_0_r in H0. rewrite H0.
  assert (forall k u, rest !! k = Some u -> done !! (S i0 + k) = Some (job u)) as H'.
  { intros k u Hk. specialize (H (S k) u Hk). by rewrite Nat.add_succ_r in H. }
  destruct (job url); by apply IH.
Qed.

(** Whatever the order in which the workers finish, the dictionary is the
    one built by taking the jobs in the order of [urls]. *)
Lemma process_urls_concurrently_assemble (urls : list string) (schedule : list nat) :
  schedule ≡ₚ seq 0 (length urls) ->
  process_urls_concurrently job urls schedule = Some (assemble job urls []).
Proof.
  intros Hp. unfold process_urls_concurrently. apply gather_assemble.
  intros k url Hk. simpl. rewrite run_pool_lookup, Hk.
  destruct (decide (k ∈ schedule)) as [|Hn]; [done|].
  exfalso. apply Hn. rewrite Hp. apply elem_of_seq.
  apply lookup_lt_Some in Hk. lia.
Qed.

Lemma dict_set_keys_new (k : string) (v : list string) (d : Dict) :
  k ∉ d.*1 -> (dict_set k v d).*1 = (d.*1 ++ [k])%list.
Proof.
  induction d as [|[k' v'] d IH]; csimpl; intros Hn; [done|].
  destruct (decide (k' = k)) as [->|]; [exfalso; apply Hn; left|].
  csimpl. rewrite IH; [done|]. intros ?. apply Hn. by right.
Qed.

Lemma dict_set_keys_old (k : string) (v : list string) (d : Dict) :
  k ∈ d.*1 -> (dict_set k v d).*1 = d.*1.
Proof.
  induction d as [|[k' v'] d IH]; csimpl; intros Hin; [by apply elem_of_nil in Hin|].
  destruct (decide (k' = k)) as [->|Hne]; [done|]. csimpl. f_equal.
  apply IH. apply elem_of_cons in Hin as [?|?]; [congruence|done].
Qed.

Lemma dict_set_NoDup (k : string) (v : list string) (d : Dict) :
  NoDup d.*1 -> NoDup (dict_set k v d).*1.
Proof.
  intros H. destruct (decide (k ∈ d.*1)) as [Hin|Hn].
  - by rewrite dict_set_keys_old.
  - rewrite dict_set_keys_new by done. apply NoDup_app.
    split; [done|]. split; [|apply NoDup_singleton].
    intros x Hx ->%list_elem_of_singleton. done.
Qed.

Lemma assemble_NoDup (urls : list string) (d : Dict) :
  NoDup d.*1 -> NoDup (assemble job urls d).*1.
Proof.
  revert d. induction urls as [|url rest IH]; intros d H; simpl; [done|].
  destruct (job url); [|by apply IH]. by apply IH, dict_set_NoDup.
Qed.

Lemma assemble_keys (urls : list string) (d : Dict) :
  NoDup (d.*1 ++ urls) ->
  (forall url, url ∈ urls -> exists links, job url = Ok links) ->
  (assemble job urls d).*1 = (d.*1 ++ urls)%list.
Proof.
  revert d. induction urls as [|url rest IH]; intros d Hnd Hok; simpl.
  - by rewrite app_nil_r.
  - destruct (Hok url) as [links ->]; [left|].
    apply NoDup_app in Hnd as (Hd & Hdis & Hu).
    assert (url ∉ d.*1) as Hn. { intros ?. apply (Hdis url); [done|left]. }
    rewrite IH.
    + rewrite dict_set_keys_new by done. by rewrite <- (assoc_L (++)).
    + rewrite dict_set_keys_new by done. rewrite <- (assoc_L (++)). simpl.
      apply NoDup_app. split; [done|]. split; [done|done].
    + intros u ?. apply Hok. by right.
Qed.

End PoolFacts.

Section TableOrder.

Import Linkdin.

Lemma gather_Some_assemble (job : string -> Result (list string))
    (done : gmap nat (Result (list string))) (i0 : nat) (urls : list string)
    (all_outgoing_links results : Dict) :
  (forall k url r, urls !! k = Some url -> done !! (i0 + k) = Some r -> r = job url) ->
  gather done i0 urls all_outgoing_links = Some results ->
  results = assemble job urls all_outgoing_links.
Proof.
  revert i0 all_outgoing_links.
  induction urls as [|url rest IH]; intros i0 acc H Hg; simpl in *; [congruence|].
  assert (forall k u r, rest !! k = Some u -> done !! (S i0 + k) = Some r -> r = job u) as H'.
  { intros k u r Hk Hr. apply (H (S k) u r Hk). by rewrite Nat.add_succ_r. }
  destruct (done !! i0) as [r|] eqn:E; [|done].
  rewrite <- (H 0 url r eq_refl) by (by rewrite Nat.add_0_r).
  destruct r; by apply (IH (S i0)).
Qed.

Lemma main_results_assemble (job : string -> Result (list string))
    (urls : list string) (schedule : list nat) (results : Dict) :
  main_results job urls schedule results ->
  exists l, set_listing urls l /\ results = assemble job l [].
Proof.
  intros (l & Hl & Hp). exists l. split; [done|].
  apply (gather_Some_assemble job (run_pool job l schedule) 0 l [] results); [|done].
  intros k url r Hk. simpl. rewrite run_pool_lookup, Hk.
  destruct (decide (k ∈ schedule)); congruence.
Qed.

(** C8, as the code has it.  The table of the email scraper has one row per
    seed, in the order of the seeds.  In the link fetcher the dictionary of
    [process_urls_concurrently] is the one built by taking the jobs in the
    order of the list it is given, whatever the order in which the workers
    finish, so that its keys are that list when the list has no duplicates
    and no job raises; but [main] hands it the seeds turned into a set and
    back into a list, so the keys of the table of [main] are a listing of
    the seeds without duplicates in the order that conversion gives. *)
Theorem table_order :
  (forall (chrome : string -> EmailScraper.Browser)
          (crawl : string -> Result (gset string))
          (duration : string -> Z) (urls : list string) (use_selenium : bool)
          (w : EmailScraper.World),
      EmailScraper.Website <$>
        (EmailScraper.scrape_multiple_websites chrome crawl
           duration urls use_selenium w).1
      = urls)
  /\ (forall (job : string -> Result (list string)) (urls : list string)
             (schedule : list nat),
        schedule ≡ₚ seq 0 (length urls) ->
        process_urls_concurrently job urls schedule = Some (assemble job urls [])
        /\ (NoDup urls ->
            (forall url, url ∈ urls -> exists links, job url = Ok links) ->
            (assemble job urls []).*1 = urls))
  /\ (forall (job : string -> Result (list string)) (urls : list string)
             (schedule : list nat) (results : Dict),
        main_results job urls schedule results ->
        NoDup results.*1
        /\ ((forall url, url ∈ urls -> exists links, job url = Ok links) ->
            set_listing urls results.*1)).
Proof.
  split; [|split].
  - intros. apply scrape_multiple_websites_websites.
  - intros job urls schedule Hp.
    split; [by apply process_urls_concurrently_assemble|].
    intros Hnd Hok. by rewrite assemble_keys.
  - intros job urls schedule results (l & [Hnd Hl] & ->)%main_results_assemble.
    split; [by apply assemble_NoDup, NoDup_nil|].
    intros Hok. rewrite assemble_keys; [done|done|].
    intros url Hu. apply Hok. by apply Hl.
Qed.

(** C8, as stated, fails for the link fetcher: the seeds given in one order
    may come out in the other, and a seed given twice has one row. *)
Lemma seed_order_counterexample :
  main_results (fun _ => Ok []) ["https://a.org/"; "https://b.org/"] [0; 1]
    [("https://b.org/", []); ("https://a.org/", [])]
  /\ (forall (schedule : list nat) (results : Dict),
        main_results (fun _ => Ok []) ["https://a.org/"; "https://a.org/"]
          schedule results ->
        results.*1 <> ["https://a.org/"; "https://a.org/"]).
Proof.
  split.
  - exists ["https://b.org/"; "https://a.org/"]. split; [split|].
    + apply (bool_decide_unpack _). vm_compute. exact I.
    + intros x. rewrite !elem_of_cons. tauto.
    + vm_compute. reflexivity.
  - intros schedule results (l & _ & ->)%main_results_assemble E.
    assert (NoDup (assemble (fun _ => Ok []) l []).*1) as Hnd
      by (apply assemble_NoDup; constructor).
    rewrite E in Hnd. apply NoDup_cons in Hnd as [Hn _]. apply Hn. left.
Qed.

End TableOrder.

(** * The rest of the two programs *)

(** ** Stripping and splitting *)

Section StripFacts.

Import PyStr.

Lemma free_of_cons (p : ascii -> bool) (c : ascii) (s : string) :
  free_of p (String c s) <-> p c = false /\ free_of p s.
Proof. unfold free_of. simpl. apply (Forall_cons (fun c => p c = false)). Qed.

Lemma free_of_app (p : ascii -> bool) (a b : string) :
  free_of p (a ++ b) <-> free_of p a /\ free_of p b.
Proof.
  unfold free_of. rewrite list_ascii_of_string_app.
  apply (Forall_app (fun c => p c = false)).
Qed.

Lemma free_of_weaken (p q : ascii -> bool) (s : string) :
  (forall c, q c = true -> p c = true) -> free_of p s -> free_of q s.
Proof.
  intros Hpq. unfold free_of. intros H.
  eapply Forall_impl; [exact H|]. intros c Hc. simpl in Hc.
  destruct (q c) eqn:E; [|done]. apply Hpq in E. congruence.
Qed.

Lemma lstrip_free (s : string) : free_of is_space s -> lstrip s = s.
Proof.
  destruct s as [|c s]; [done|]. intros [Hc _]%free_of_cons. simpl. by rewrite Hc.
Qed.

Lemma rstrip_free (s : string) : free_of is_space s -> rstrip s = s.
Proof.
  induction s as [|c s IH]; [done|]. intros [Hc Hs]%free_of_cons.
  simpl. rewrite (IH Hs), Hc. by destruct s.
Qed.

Lemma strip_free (s : string) : free_of is_space s -> strip s = s.
Proof. intros H. unfold strip. by rewrite (rstrip_free _ H), (lstrip_free _ H). Qed.

Lemma lstrip_lstrip (s : string) : lstrip (lstrip s) = lstrip s.
Proof.
  induction s as [|c s IH]; [done|]. simpl.
  destruct (is_space c) eqn:E; [done|]. simpl. by rewrite E.
Qed.

Lemma rstrip_rstrip (s : string) : rstrip (rstrip s) = rstrip s.
Proof.
  induction s as [|c s IH]; [done|]. simpl.
  destruct (rstrip s) as [|d r] eqn:E.
  - destruct (is_space c) eqn:Ec; [done|]. simpl. by rewrite Ec.
  - simpl. simpl in IH. by rewrite IH.
Qed.

(** Stripping on the left keeps a string stripped on the right. *)
Lemma rstrip_lstrip (s : string) : rstrip s = s -> rstrip (lstrip s) = lstrip s.
Proof.
  induction s as [|c s IH]; [done|]. intros H. simpl.
  destruct (is_space c) eqn:E; [|done].
  apply IH. simpl in H. destruct (rstrip s) as [|d r] eqn:Er.
  - rewrite E in H. done.
  - by injection H.
Qed.

Lemma strip_strip (s : string) : strip (strip s) = strip s.
Proof.
  unfold strip.
  rewrite (rstrip_lstrip (rstrip s) (rstrip_rstrip s)). apply lstrip_lstrip.
Qed.

End StripFacts.

Section SplitRuns.

Import PyStr Re.

Variable cls : ascii -> bool.

Lemma split_runs_go_free (cur : option string) (s : string) :
  free_of cls (default "" cur) ->
  Forall (free_of cls) (split_runs_go cls cur s).
Proof.
  revert cur. induction s as [|c s IH]; intros cur Hcur; simpl.
  - by repeat constructor.
  - destruct (cls c) eqn:E.
    + destruct cur as [piece|]; [constructor; [done|]|]; apply IH; constructor.
    + apply IH. simpl. apply free_of_app. split; [done|].
      apply free_of_cons. split; [done|constructor].
Qed.

Lemma split_runs_go_occurs (cur : option string) (s piece : string) :
  piece ∈ split_runs_go cls cur s -> occurs_in piece (default "" cur ++ s).
Proof.
  revert cur. induction s as [|c s IH]; intros cur H; simpl in H.
  - apply list_elem_of_singleton in H as ->. by exists "", "".
  - destruct (cls c).
    + destruct cur as [p|]; simpl.
      * apply elem_of_cons in H as [-> | H]; [by exists "", (String c s)|].
        apply IH in H as (b & a & E). simpl in E.
        exists (p ++ String c b), a. rewrite E, !string_app_assoc. done.
      * apply IH in H as (b & a & E). simpl in E.
        exists (String c b), a. by rewrite E.
    + apply IH in H as (b & a & E). simpl in E.
      exists b, a. rewrite <- E. rewrite string_app_assoc. done.
Qed.

Lemma split_runs_go_piece (cur x rest : string) :
  free_of cls x ->
  split_runs_go cls (Some cur) (x ++ rest) = split_runs_go cls (Some (cur ++ x)) rest.
Proof.
  revert cur. induction x as [|c x IH]; intros cur H; simpl.
  - by rewrite string_app_nil_r.
  - apply free_of_cons in H as [Hc Hx]. rewrite Hc, (IH _ Hx).
    by rewrite string_app_assoc.
Qed.

Lemma split_runs_go_first (x rest : string) :
  free_of cls x -> x <> "" ->
  split_runs_go cls None (x ++ rest) = split_runs_go cls (Some x) rest.
Proof.
  destruct x as [|c x]; [done|]. intros [Hc Hx]%free_of_cons _. simpl.
  rewrite Hc. simpl. by rewrite (split_runs_go_piece _ _ _ Hx).
Qed.

Lemma split_runs_go_run (d rest : string) :
  all_in cls d ->
  split_runs_go cls None (d ++ rest) = split_runs_go cls None rest.
Proof.
  unfold all_in. induction d as [|c d IH]; simpl; [done|].
  intros [Hc Hd]%Forall_cons. rewrite Hc. by apply IH.
Qed.

Lemma split_runs_go_cut (cur d rest : string) :
  all_in cls d -> d <> "" ->
  split_runs_go cls (Some cur) (d ++ rest) = cur :: split_runs_go cls None rest.
Proof.
  destruct d as [|c d]; [done|]. unfold all_in. simpl.
  intros [Hc Hd]%Forall_cons _. rewrite Hc. f_equal. by apply split_runs_go_run.
Qed.

(** Splitting a joined list gives the list back. *)
Lemma split_runs_go_join (d : string) (l : list string) (x : string) :
  all_in cls d -> d <> "" ->
  Forall (fun u => u <> "" /\ free_of cls u) (x :: l) ->
  split_runs_go cls None (PyStr.join d (x :: l)) = x :: l
  /\ split_runs_go cls (Some "") (PyStr.join d (x :: l)) = x :: l.
Proof.
  intros Hd Hne. revert x. induction l as [|y l IH]; intros x H.
  - apply Forall_cons in H as [[Hx Hf] _]. simpl.
    rewrite <- (string_app_nil_r x) at 1 3.
    rewrite (split_runs_go_first _ _ Hf Hx), (split_runs_go_piece _ _ _ Hf). done.
  - apply Forall_cons in H as [[Hx Hf] Hl].
    destruct (IH y Hl) as [IH1 _].
    change (PyStr.join d (x :: y :: l)) with (x ++ d ++ PyStr.join d (y :: l)).
    rewrite (split_runs_go_first _ _ Hf Hx), (split_runs_go_piece _ _ _ Hf).
    rewrite !(split_runs_go_cut _ _ _ Hd Hne), IH1. done.
Qed.

Lemma split_runs_go_empty (cur : option string) (s : string) :
  filter (fun u => u <> "") (split_runs_go cls cur s) = []
  <-> default "" cur = "" /\ all_in cls s.
Proof.
  unfold all_in. revert cur. induction s as [|c s IH]; intros cur; simpl.
  - rewrite filter_cons. destruct (decide (default "" cur <> "")) as [Hn|Hn].
    + split; [done|]. by intros [? _].
    + split; [|done]. intros _. split; [|constructor].
      by destruct (decide (default "" cur = "")).
  - destruct (cls c) eqn:E.
    + destruct cur as [p|]; simpl.
      * rewrite filter_cons. destruct (decide (p <> "")) as [Hn|Hn].
        -- split; [done|]. by intros [? _].
        -- rewrite IH. simpl. rewrite Forall_cons.
           destruct (decide (p = "")); [|done]. tauto.
      * rewrite IH. simpl. rewrite Forall_cons. tauto.
    + rewrite IH. simpl. split.
      * intros [H _]. by destruct (default "" cur).
      * intros [_ [Hc _]%Forall_cons]. congruence.
Qed.

End SplitRuns.

(** ** [normalize_urls] *)

Section NormalizeUrls.

Import PyStr Re EmailScraper.

Lemma is_space_comma_or_space (c : ascii) :
  is_space c = true -> comma_or_space c = true.
Proof. unfold comma_or_space. intros ->. apply orb_true_r. Qed.

Lemma strip_filter_free (l : list string) :
  Forall (free_of is_space) l ->
  strip <$> filter (fun u => strip u <> "") l = filter (fun u => u <> "") l.
Proof.
  induction 1 as [|u l Hu _ IH]; [done|].
  rewrite !filter_cons, (strip_free _ Hu).
  destruct (decide (u <> "")); [|done]. csimpl. by rewrite (strip_free _ Hu), IH.
Qed.

Lemma normalize_urls_pieces (input_text : string) :
  normalize_urls input_text
  = filter (fun u => u <> "") (split_runs comma_or_space input_text).
Proof.
  unfold normalize_urls. apply strip_filter_free.
  eapply Forall_impl; [apply split_runs_go_free; constructor|].
  intros u. apply free_of_weaken, is_space_comma_or_space.
Qed.

(** X1.  Every URL that [normalize_urls] returns is not empty, holds no
    comma and no whitespace, is left unchanged by [strip], and occurs in
    the text it was read from. *)
Theorem normalize_urls_clean (input_text : string) :
  Forall (fun url => url <> "" /\ free_of comma_or_space url
                     /\ strip url = url /\ occurs_in url input_text)
         (normalize_urls input_text).
Proof.
  rewrite normalize_urls_pieces. apply Forall_forall. intros url Hin.
  apply list_elem_of_filter in Hin as [Hne Hin].
  assert (free_of comma_or_space url) as Hf.
  { pose proof (split_runs_go_free comma_or_space (Some "") input_text) as H.
    rewrite Forall_forall in H. apply H; [constructor|done]. }
  split; [done|]. split; [done|]. split.
  - apply strip_free. revert Hf. apply free_of_weaken, is_space_comma_or_space.
  - by apply (split_runs_go_occurs comma_or_space (Some "")).
Qed.

(** X2.  [normalize_urls] returns no URL exactly when the text consists of
    commas and whitespace only, the empty text included. *)
Theorem normalize_urls_nil_iff (input_text : string) :
  normalize_urls input_text = [] <-> all_in comma_or_space input_text.
Proof.
  rewrite normalize_urls_pieces. unfold split_runs.
  rewrite split_runs_go_empty. simpl. tauto.
Qed.

(** X3.  Reading back a list of URLs written with a separator gives the
    list: when every URL is non-empty and holds no comma and no whitespace,
    and the separator is a non-empty string of commas and whitespace,
    [normalize_urls] of the joined text is the list itself, in order and
    with its duplicates. *)
Theorem normalize_urls_join (sep : string) (urls : list string) :
  all_in comma_or_space sep -> sep <> "" ->
  Forall (fun url => url <> "" /\ free_of comma_or_space url) urls ->
  normalize_urls (PyStr.join sep urls) = urls.
Proof.
  intros Hs Hne Hl. rewrite normalize_urls_pieces. unfold split_runs.
  destruct urls as [|x l]; [done|].
  destruct (split_runs_go_join comma_or_space sep l x Hs Hne Hl) as [_ ->].
  clear Hs Hne. induction Hl as [|u l' [Hu _] _ IH]; [done|].
  rewrite filter_cons. destruct (decide (u <> "")); [|done]. by rewrite IH.
Qed.

Lemma normalize_urls_join_witness :
  normalize_urls (PyStr.join ", " ["https://a.org/"; "b.com"; "https://a.org/"])
  = ["https://a.org/"; "b.com"; "https://a.org/"].
Proof.
  apply (normalize_urls_join ", " ["https://a.org/"; "b.com"; "https://a.org/"]).
  - unfold all_in. simpl. repeat constructor.
  - discriminate.
  - repeat constructor; try discriminate;
      unfold free_of; simpl; repeat constructor.
Defined.

Lemma email_chars_not_separators (c : ascii) :
  local_class c || domain_class c || is_alpha c
  || Ascii.eqb c "@" || Ascii.eqb c "." = true ->
  comma_or_space c = false.
Proof.
  destruct c as [[] [] [] [] [] [] [] []]; vm_compute; congruence.
Qed.

Lemma all_in_free (cls : ascii -> bool) (s : string) :
  (forall c, cls c = true -> comma_or_space c = false) ->
  all_in cls s -> free_of comma_or_space s.
Proof.
  intros H Hs. unfold all_in, free_of in *.
  eapply Forall_impl; [exact Hs|]. intros c Hc. by apply H.
Qed.

Lemma email_shape_free (e : string) :
  email_shape e -> e <> "" /\ free_of comma_or_space e.
Proof.
  intros (l & d & t & -> & Hl & Fl & _ & Fd & _ & Ft).
  apply (class_made_of _ _ _ local_class_chars) in Fl.
  apply (class_made_of _ _ _ domain_class_chars) in Fd.
  apply (class_made_of _ _ _ is_alpha_chars) in Ft. split.
  - destruct l; [simpl in Hl; lia|done].
  - rewrite !free_of_app. repeat split.
    + revert Fl. apply all_in_free. intros c Hc.
      apply email_chars_not_separators. by rewrite Hc.
    + by repeat constructor.
    + revert Fd. apply all_in_free. intros c Hc.
      apply email_chars_not_separators. rewrite Hc. by rewrite !orb_true_r.
    + by repeat constructor.
    + revert Ft. apply all_in_free. intros c Hc.
      apply email_chars_not_separators. rewrite Hc. by rewrite !orb_true_r.
Qed.

(** X4.  The emails cell of a row can be split back: the text that
    [scrape_multiple_websites] writes for the emails of a page,
    [", ".join(emails)], read with [normalize_urls], gives exactly the
    emails extracted, since no email holds a comma or whitespace. *)
Theorem emails_cell_splits_back (html_content : string) :
  normalize_urls (PyStr.join ", " (extract_emails html_content))
  = extract_emails html_content
  /\ Forall (fun e => e <> "" /\ free_of comma_or_space e)
       (extract_emails html_content).
Proof.
  assert (Forall (fun e => e <> "" /\ free_of comma_or_space e)
            (extract_emails html_content)) as H.
  { apply Forall_forall. intros e He.
    apply elem_of_extract_emails, findall_sound in He as [_ He].
    by apply email_shape_free. }
  split; [|done]. rewrite normalize_urls_pieces. unfold split_runs.
  destruct (extract_emails html_content) as [|x l]; [done|].
  assert (all_in comma_or_space ", ") as Hs
    by (unfold all_in; simpl; repeat constructor).
  assert (", " <> "") as Hne by discriminate.
  destruct (split_runs_go_join comma_or_space ", " l x Hs Hne H) as [_ ->].
  clear Hs Hne. induction H as [|u l' [Hu _] _ IH]; [done|].
  rewrite filter_cons. destruct (decide (u <> "")); [|done]. by rewrite IH.
Qed.

End NormalizeUrls.

(** ** The spider's emails and its domain *)

Section SpiderMore.

Import EmailScraper.

Variable urljoin : string -> string -> Result string.
Variable Request : string -> Result string.

Lemma parse_emails (self : Spider) (response : Response) :
  emails (parse urljoin Request self response).2
    = emails self ∪ list_to_set (extract_emails (text response))
  /\ start_urls (parse urljoin Request self response).2 = start_urls self.
Proof.
  unfold parse. destruct (parse_links _ _ _ _ _) as [requests [e|]]; [done|].
  destruct (keyword_page response); simpl; [|done].
  split; [set_solver|done].
Qed.

(** X5.  The spider loses no email and invents none: after the callback
    has run over a sequence of responses, its emails are those it had
    before together with those extracted from the text of each response;
    its allowed domains and start URLs are unchanged. *)
Theorem emails_accumulate (self : Spider) (responses : list Response) :
  (forall e : string,
      e ∈ emails (parse_all urljoin Request self responses).2 <->
      e ∈ emails self
      \/ exists response, response ∈ responses
                          /\ e ∈ extract_emails (text response))
  /\ allowed_domains (parse_all urljoin Request self responses).2 = allowed_domains self
  /\ start_urls (parse_all urljoin Request self responses).2 = start_urls self.
Proof.
  revert self. induction responses as [|r rest IH]; intros self.
  - simpl. split; [|done]. intros e. split; [by left|].
    intros [?|(? & ?%elem_of_nil & _)]; done.
  - rewrite parse_all_cons. cbn [fst snd].
    destruct (IH (parse urljoin Request self r).2) as (He & Ha & Hs).
    destruct (parse_emails self r) as [Pe Ps].
    destruct (parse_step urljoin Request self r) as (_ & Pa & _).
    split; [|split; congruence].
    intros e. rewrite He, Pe, elem_of_union, elem_of_list_to_set. split.
    + intros [[?|?]|(x & ? & ?)]; [by left| |].
      * right. exists r. split; [left|done].
      * right. exists x. split; [by right|done].
    + intros [?|(x & [-> | ?]%elem_of_cons & ?)]; [by left; left|by left; right|].
      right. by exists x.
Qed.

End SpiderMore.

Section DomainOf.

Import EmailScraper.

Lemma no_slash_cons (c : ascii) (s : string) :
  PyStr.contains "/" (String c s) = false ->
  c <> "/"%char /\ PyStr.contains "/" s = false.
Proof.
  rewrite contains_eq, prefix_String, prefix_nil.
  destruct (ascii_dec "/" c) as [<-|Hc]; [done|]. simpl. intros ->.
  split; [congruence|done].
Qed.

Lemma prefix_other (sep : string) (a c : ascii) (s : string) :
  c <> a -> String.prefix (String a sep) (String c s) = false.
Proof.
  intros Hc. rewrite prefix_String. destruct (ascii_dec a c); [congruence|done].
Qed.

(** A piece without ['/'] is read whole, for the separators ['//'] and
    ['/']. *)
Lemma split_go_no_slash (sep cur p s : string) :
  PyStr.contains "/" p = false ->
  PyStr.split_go (String "/" sep) 0 cur (p ++ s)
  = PyStr.split_go (String "/" sep) 0 (cur ++ p) s.
Proof.
  revert cur. induction p as [|c p IH]; intros cur H.
  - by rewrite string_app_nil_r.
  - apply no_slash_cons in H as [Hc Hp].
    change (String c p ++ s) with (String c (p ++ s)).
    cbn [PyStr.split_go]. rewrite (prefix_other _ _ _ _ Hc), (IH _ Hp).
    by rewrite string_app_assoc.
Qed.

Lemma split_go_no_sep (cur s : string) :
  PyStr.contains "//" s = false ->
  PyStr.split_go "//" 0 cur s = [cur ++ s].
Proof.
  revert cur. induction s as [|c s IH]; intros cur H.
  - by rewrite string_app_nil_r.
  - rewrite contains_eq in H. apply orb_false_iff in H as [Hp Hs].
    cbn [PyStr.split_go]. rewrite Hp, (IH _ Hs). by rewrite string_app_assoc.
Qed.

Lemma split_double_slash (p rest : string) :
  PyStr.contains "/" p = false -> PyStr.contains "//" rest = false ->
  PyStr.split "//" (p ++ "//" ++ rest) = [p; rest].
Proof.
  intros Hp Hr. unfold PyStr.split. rewrite (split_go_no_slash _ _ _ _ Hp).
  simpl. by rewrite prefix_nil, (split_go_no_sep _ _ Hr).
Qed.

Lemma first_piece_host (host rest : string) :
  PyStr.contains "/" host = false ->
  rest = "" \/ PyStr.startswith "/" rest = true ->
  PyStr.first_piece (PyStr.split "/" (host ++ rest)) = host.
Proof.
  intros Hh Hr. unfold PyStr.split. rewrite (split_go_no_slash _ _ _ _ Hh).
  destruct Hr as [-> | Hr]; [done|].
  apply prefix_inv in Hr as [path ->]. simpl. by rewrite prefix_nil.
Qed.

(** X6.  For a seed of the form [scheme://host] followed by nothing or by a
    path starting with ['/'], where neither the scheme part nor the host
    holds a ['/'] and no ['//'] occurs after the scheme, the allowed domain
    computed by [__init__] is the host; the same holds for a seed given
    without a scheme. *)
Theorem domain_of_host (p host rest : string) :
  PyStr.contains "/" p = false ->
  PyStr.contains "/" host = false ->
  rest = "" \/ PyStr.startswith "/" rest = true ->
  PyStr.contains "//" (host ++ rest) = false ->
  domain_of (p ++ "//" ++ host ++ rest) = host
  /\ domain_of (host ++ rest) = host
  /\ allowed_domains (init (p ++ "//" ++ host ++ rest)) = [host].
Proof.
  intros Hp Hh Hr Hn.
  assert (domain_of (p ++ "//" ++ host ++ rest) = host) as H1.
  { unfold domain_of. rewrite (split_double_slash _ _ Hp Hn).
    by apply first_piece_host. }
  split; [done|]. split.
  - assert (PyStr.split "//" (host ++ rest) = [host ++ rest]) as E
      by (unfold PyStr.split; by rewrite (split_go_no_sep _ _ Hn)).
    unfold domain_of. rewrite E. by apply first_piece_host.
  - unfold init. cbn [allowed_domains]. by rewrite H1.
Qed.

Lemma domain_of_host_witness :
  domain_of "https://www.example.com/a/b?q=1" = "www.example.com"
  /\ domain_of "www.example.com/a/b?q=1" = "www.example.com"
  /\ allowed_domains (init "https://www.example.com/a/b?q=1") = ["www.example.com"].
Proof.
  apply (domain_of_host "https:" "www.example.com" "/a/b?q=1");
    [reflexivity|reflexivity|right; reflexivity|reflexivity].
Defined.

End DomainOf.

(** ** More on the outgoing-link extractor *)

Section ExtractorMore.

Import Linkdin.

Variable urljoin : string -> string -> string.
Variable netloc : string -> string.
Variable malformed : string -> string -> bool.

Lemma collect_links_stops (url main_domain : string) (before after : list string)
    (link : string) (acc : gset string) :
  malformed url link = true ->
  collect_links urljoin netloc malformed url main_domain (before ++ link :: after)%list acc
  = collect_links urljoin netloc malformed url main_domain before acc.
Proof.
  intros Hm. revert acc. induction before as [|l rest IH]; intros acc; simpl.
  - by rewrite Hm.
  - destruct (malformed url l); [done|]. by destruct (is_outgoing _ _ _).
Qed.

(** X7.  Every anchor that the loop gets to and that passes its test is
    recorded: if the page loads and such an anchor has a domain that is not
    empty, does not contain the page's domain or an excluded site, and an
    absolute URL without excluded fragment, then ['https://{domain}/'] is
    in the result; this is so for every anchor of the page when none of
    them makes [urljoin] or [urlparse] raise.  An anchor that does ends the
    loop: the result is that of the anchors before it. *)
Theorem passing_anchor_recorded (anchor_tags_of : string -> Result (list string))
    (url : string) (anchor_tags : list string) :
  anchor_tags_of url = Ok anchor_tags ->
  (forall link : string,
      link ∈ anchors_read malformed url anchor_tags ->
      is_outgoing (without_www (netloc url))
        (without_www (netloc (urljoin url link))) (urljoin url link) = true ->
      entry_of (without_www (netloc (urljoin url link)))
        ∈ extract_links_from_page urljoin netloc malformed anchor_tags_of url)
  /\ ((forall link, link ∈ anchor_tags -> malformed url link = false) ->
      forall link : string,
        link ∈ anchor_tags ->
        is_outgoing (without_www (netloc url))
          (without_www (netloc (urljoin url link))) (urljoin url link) = true ->
        entry_of (without_www (netloc (urljoin url link)))
          ∈ extract_links_from_page urljoin netloc malformed anchor_tags_of url)
  /\ (forall (before after : list string) (link : string),
        anchor_tags = (before ++ link :: after)%list ->
        malformed url link = true ->
        extract_links_from_page urljoin netloc malformed anchor_tags_of url
        = extract_links_from_page urljoin netloc malformed (fun _ => Ok before) url).
Proof.
  intros Ht.
  assert (forall link : string,
            link ∈ anchors_read malformed url anchor_tags ->
            is_outgoing (without_www (netloc url))
              (without_www (netloc (urljoin url link))) (urljoin url link) = true ->
            entry_of (without_www (netloc (urljoin url link)))
              ∈ extract_links_from_page urljoin netloc malformed anchor_tags_of url)
    as Hread.
  { intros link Hl Ho. apply elem_of_extract_links. by exists anchor_tags, link. }
  split; [done|]. split.
  - intros Hok link Hl. apply Hread. by rewrite anchors_read_all.
  - intros before after link -> Hm. unfold extract_links_from_page.
    by rewrite Ht, collect_links_stops.
Qed.

(** X8.  When no anchor makes [urljoin] or [urlparse] raise, the set of
    outgoing links depends only on which anchors the page has, not on their
    order or on how often each occurs: two renderings of a page with the
    same anchors give results with the same entries. *)
Theorem anchors_order_irrelevant (tags1 tags2 : string -> Result (list string))
    (url : string) (a1 a2 : list string) :
  tags1 url = Ok a1 -> tags2 url = Ok a2 ->
  (forall x, x ∈ a1 <-> x ∈ a2) ->
  (forall x, x ∈ a1 -> malformed url x = false) ->
  forall entry : string,
    entry ∈ extract_links_from_page urljoin netloc malformed tags1 url
    <-> entry ∈ extract_links_from_page urljoin netloc malformed tags2 url.
Proof.
  intros H1 H2 H Hok entry. rewrite !elem_of_extract_links.
  assert (forall x, x ∈ a2 -> malformed url x = false) as Hok2.
  { intros x Hx. by apply Hok, H. }
  split; intros (t & l & Ht & Hl & Ho & ->).
  - rewrite H1 in Ht. injection Ht as <-. rewrite anchors_read_all in Hl by done.
    exists a2, l. rewrite anchors_read_all by done. split; [done|].
    split; [by apply H|done].
  - rewrite H2 in Ht. injection Ht as <-. rewrite anchors_read_all in Hl by done.
    exists a1, l. rewrite anchors_read_all by done. split; [done|].
    split; [by apply H|done].
Qed.

Lemma collect_links_none (url main_domain : string) (anchor_tags : list string)
    (acc : gset string) :
  (forall link, is_outgoing main_domain (without_www (netloc (urljoin url link)))
                  (urljoin url link) = false) ->
  collect_links urljoin netloc malformed url main_domain anchor_tags acc = acc.
Proof.
  intros H. revert acc. induction anchor_tags as [|link rest IH]; intros acc; simpl.
  - done.
  - destruct (malformed url link); [done|]. by rewrite H, IH.
Qed.

(** X9.  The extractor returns the empty list when the page cannot be
    rendered, and also when the page's own domain is empty (a URL without
    network location, such as one given without scheme, or with the
    location ['www.']): the empty string occurs in every domain, so every
    anchor is taken for an internal link. *)
Theorem no_links_without_domain (anchor_tags_of : string -> Result (list string))
    (url : string) :
  without_www (netloc url) = "" \/ (exists e, anchor_tags_of url = Raise e) ->
  extract_links_from_page urljoin netloc malformed anchor_tags_of url = [].
Proof.
  intros H. unfold extract_links_from_page.
  destruct (anchor_tags_of url) as [tags|e] eqn:E; [|apply elements_empty].
  destruct H as [H|[e H]]; [|done]. rewrite H.
  rewrite collect_links_none; [apply elements_empty|].
  intros link. unfold is_outgoing.
  rewrite contains_eq, prefix_nil. simpl. by rewrite andb_false_r.
Qed.

End ExtractorMore.

Section ExtractorMoreExamples.

Import Linkdin.

(** A page whose second anchor cannot be parsed: the first anchor is
    recorded, the third is not reached. *)
Lemma passing_anchor_recorded_witness :
  extract_links_from_page Sample.urljoin Sample.netloc Sample.malformed
    Sample.anchor_tags_of "https://links.org/"
  = ["https://first.org/"]
  /\ "https://partner.org/" ∈
       extract_links_from_page Sample.urljoin Sample.netloc Sample.malformed
         Sample.anchor_tags_of "https://blog.net/".
Proof.
  split.
  - destruct (passing_anchor_recorded Sample.urljoin Sample.netloc Sample.malformed
                Sample.anchor_tags_of "https://links.org/"
                ["https://first.org/a"; "http://[second.org/"; "https://third.org/"]
                eq_refl) as (_ & _ & H).
    rewrite (H ["https://first.org/a"] ["https://third.org/"] "http://[second.org/"
               eq_refl eq_refl).
    vm_compute. reflexivity.
  - destruct (passing_anchor_recorded Sample.urljoin Sample.netloc Sample.malformed
                Sample.anchor_tags_of "https://blog.net/"
                ["https://m.facebook.com/x"; "https://blog.net.mirror.io/";
                 "https://partner.org/page"]
                eq_refl) as (H & _ & _).
    apply (H "https://partner.org/page"); [|reflexivity].
    right. right. left.
Defined.

Lemma anchors_order_irrelevant_witness :
  "https://a.org/" ∈
    extract_links_from_page Sample.urljoin Sample.netloc Sample.malformed
      (fun _ => Ok ["https://b.org/"; "https://a.org/y"; "https://a.org/x";
                    "https://b.org/"])
      Sample.site.
Proof.
  apply (anchors_order_irrelevant Sample.urljoin Sample.netloc Sample.malformed
           (fun _ => Ok ["https://a.org/x"; "https://b.org/"; "https://a.org/y"])
           (fun _ => Ok ["https://b.org/"; "https://a.org/y"; "https://a.org/x";
                         "https://b.org/"])
           Sample.site
           ["https://a.org/x"; "https://b.org/"; "https://a.org/y"]
           ["https://b.org/"; "https://a.org/y"; "https://a.org/x"; "https://b.org/"]
           eq_refl eq_refl).
  - intros x. rewrite !elem_of_cons. split; intros H; tauto.
  - intros x Hx. repeat (apply elem_of_cons in Hx as [-> |Hx]; [reflexivity|]).
    by apply elem_of_nil in Hx.
  - apply (bool_decide_unpack _). vm_compute. exact I.
Defined.

Lemma no_links_without_domain_witness :
  extract_links_from_page Sample.urljoin Sample.netloc_of_url Sample.malformed
    (fun _ => Ok ["https://a.org/x"; "https://b.org/"]) "example.com/page"
  = []
  /\ extract_links_from_page Sample.urljoin Sample.netloc_of_url Sample.malformed
       (fun _ => Ok ["https://a.org/x"; "https://b.org/"]) "https://example.com/page"
     <> [].
Proof.
  split.
  - apply (no_links_without_domain Sample.urljoin Sample.netloc_of_url Sample.malformed).
    left. reflexivity.
  - vm_compute. discriminate.
Defined.

End ExtractorMoreExamples.

(** ** The dictionary of results and the exported rows *)

Section Dictionary.

Import Linkdin.

Lemma elem_of_dict_set (k : string) (v : list string) (d : Dict)
    (x : string * list string) :
  (forall v', (k, v') ∈ d -> v' = v) ->
  x ∈ dict_set k v d <-> x ∈ d \/ x = (k, v).
Proof.
  induction d as [|[k' v'] d IH]; intros H; simpl.
  - rewrite list_elem_of_singleton. split; [by right|].
    intros [?%elem_of_nil|?]; done.
  - destruct (decide (k' = k)) as [-> | Hne].
    + rewrite (H v') by left. split; [by left|].
      intros [?| ->]; [done|left].
    + rewrite !elem_of_cons, IH.
      * tauto.
      * intros v'' Hin. apply H. by right.
Qed.

Section Jobs.

Variable job : string -> Result (list string).

Lemma elem_of_assemble (urls : list string) (d : Dict) (x : string * list string) :
  (forall k v, (k, v) ∈ d -> job k = Ok v) ->
  x ∈ assemble job urls d <-> x ∈ d \/ (x.1 ∈ urls /\ job x.1 = Ok x.2).
Proof.
  revert d. induction urls as [|url rest IH]; intros d Hd; simpl.
  - split; [by left|]. intros [?|[?%elem_of_nil _]]; done.
  - destruct (job url) as [links|e] eqn:E.
    + assert (forall v', (url, v') ∈ d -> v' = links) as Hv.
      { intros v' Hin. apply Hd in Hin. congruence. }
      rewrite IH.
      * rewrite (elem_of_dict_set _ _ _ _ Hv), elem_of_cons.
        destruct x as [k v]. simpl. split.
        -- intros [[?|[= -> ->]]|[? ?]]; [by left|right|right]; split; auto.
        -- intros [?|[[-> | ?] Hj]]; [by left; left| |by right].
           left. right. congruence.
      * intros k v [Hin|[= -> ->]]%(elem_of_dict_set _ _ _ _ Hv); [by apply Hd|done].
    + rewrite (IH _ Hd), elem_of_cons. destruct x as [k v]. simpl. split.
      * intros [?|[? ?]]; [by left|right]. split; auto.
      * intros [?|[[-> | ?] Hj]]; [by left|congruence|by right].
Qed.

(** X10.  Whatever the order in which the workers finish,
    [process_urls_concurrently] returns a dictionary with one entry per key
    that maps a URL to a list of links exactly when the URL was submitted
    and its job returned that list; a URL whose job raised has no entry. *)
Theorem results_of_jobs (urls : list string) (schedule : list nat) :
  schedule ≡ₚ seq 0 (length urls) ->
  exists results : Dict,
    process_urls_concurrently job urls schedule = Some results
    /\ NoDup results.*1
    /\ forall url links,
         (url, links) ∈ results <-> url ∈ urls /\ job url = Ok links.
Proof.
  intros Hp. exists (assemble job urls []).
  split; [by apply process_urls_concurrently_assemble|].
  split; [apply assemble_NoDup; constructor|].
  intros url links. rewrite elem_of_assemble.
  - simpl. split; [intros [?%elem_of_nil|?]; done|by right].
  - by intros k v ?%elem_of_nil.
Qed.

End Jobs.

Lemma elem_of_link_rows (base_url : string) (links : list string)
    (x : string * string) :
  x ∈ link_rows base_url links <-> x.1 = base_url /\ x.2 ∈ links.
Proof.
  induction links as [|link rest IH]; simpl.
  - split; [by intros ?%elem_of_nil|]. by intros [_ ?%elem_of_nil].
  - rewrite !elem_of_cons, IH. destruct x as [b l]. simpl. split.
    + intros [[= -> ->]|[-> ?]]; auto.
    + intros [-> [-> | ?]]; auto.
Qed.

Lemma elem_of_export_rows (results : Dict) (base_url link : string) :
  (base_url, link) ∈ export_rows results <->
  exists links, (base_url, links) ∈ results /\ link ∈ links.
Proof.
  induction results as [|[b ls] rest IH]; simpl.
  - split; [by intros ?%elem_of_nil|]. by intros (? & ?%elem_of_nil & _).
  - rewrite elem_of_app, elem_of_link_rows, IH. simpl. split.
    + intros [[-> ?]|(links & ? & ?)].
      * exists ls. split; [left|done].
      * exists links. split; [by right|done].
    + intros (links & [[= -> ->]|?]%elem_of_cons & ?); [by left|].
      right. by exists links.
Qed.

Lemma length_link_rows (base_url : string) (links : list string) :
  length (link_rows base_url links) = length links.
Proof. induction links; simpl; congruence. Qed.

Lemma length_export_rows (results : Dict) :
  length (export_rows results) = sum_list (length <$> results.*2).
Proof.
  induction results as [|[b ls] rest IH]; [done|]. csimpl.
  by rewrite length_app, length_link_rows, IH.
Qed.

(** X11.  The rows written by [save_to_csv] and [save_to_excel] for the
    result of [process_urls_concurrently] on the extractor: a row
    (base URL, link) is written exactly when the base URL was given and the
    link is one of the outgoing links extracted from its page, so a page
    without outgoing links has no row at all; the number of rows is the
    total number of links of the entries. *)
Theorem exported_rows (urljoin : string -> string -> string)
    (netloc : string -> string) (malformed : string -> string -> bool)
    (anchor_tags_of : string -> Result (list string))
    (urls : list string) (schedule : list nat) :
  schedule ≡ₚ seq 0 (length urls) ->
  exists results : Dict,
    process_urls_concurrently
      (fun url => Ok (extract_links_from_page urljoin netloc malformed anchor_tags_of url))
      urls schedule = Some results
    /\ (forall base_url link,
          (base_url, link) ∈ export_rows results <->
          base_url ∈ urls
          /\ link ∈ extract_links_from_page urljoin netloc malformed anchor_tags_of base_url)
    /\ length (export_rows results) = sum_list (length <$> results.*2).
Proof.
  intros Hp. eexists.
  split; [by apply process_urls_concurrently_assemble|].
  split; [|apply length_export_rows].
  assert (forall k v,
            (k, v) ∈ ([] : Dict) ->
            Ok (extract_links_from_page urljoin netloc malformed anchor_tags_of k) = Ok v)
    as Hnil by (by intros k v ?%elem_of_nil).
  intros b l. rewrite elem_of_export_rows. split.
  - intros (links & Hin & ?).
    apply (elem_of_assemble _ _ _ _ Hnil) in Hin as [?%elem_of_nil|[? [= <-]]]; done.
  - intros [? ?]. eexists. split; [|done].
    apply (elem_of_assemble _ _ _ _ Hnil). right. split; [done|reflexivity].
Qed.

End Dictionary.

Section DictionaryExamples.

Import Linkdin.

Lemma results_of_jobs_witness :
  exists results : Dict,
    process_urls_concurrently
      (fun url => if decide (url = "x") then Raise "boom" else Ok [url])
      ["a"; "x"; "a"] [2; 0; 1] = Some results
    /\ NoDup results.*1
    /\ forall url links,
         (url, links) ∈ results <->
         url ∈ ["a"; "x"; "a"]
         /\ (if decide (url = "x") then Raise "boom" else Ok [url]) = Ok links.
Proof.
  apply (results_of_jobs
           (fun url => if decide (url = "x") then Raise "boom" else Ok [url])
           ["a"; "x"; "a"] [2; 0; 1]).
  apply (bool_decide_unpack _). vm_compute. exact I.
Defined.

Lemma exported_rows_witness :
  exists results : Dict,
    process_urls_concurrently
      (fun url => Ok (extract_links_from_page Sample.urljoin Sample.netloc Sample.malformed
                        Sample.anchor_tags_of url))
      [Sample.seed; "https://blog.net/"] [1; 0] = Some results
    /\ (forall base_url link,
          (base_url, link) ∈ export_rows results <->
          base_url ∈ [Sample.seed; "https://blog.net/"]
          /\ link ∈ extract_links_from_page Sample.urljoin Sample.netloc Sample.malformed
                      Sample.anchor_tags_of base_url)
    /\ length (export_rows results) = sum_list (length <$> results.*2).
Proof.
  apply (exported_rows Sample.urljoin Sample.netloc Sample.malformed Sample.anchor_tags_of
           [Sample.seed; "https://blog.net/"] [1; 0]).
  apply (bool_decide_unpack _). vm_compute. exact I.
Defined.

Example export_rows_sample :
  export_rows [(Sample.seed, []); ("https://blog.net/", ["https://partner.org/"])]
  = [("https://blog.net/", "https://partner.org/")].
Proof. reflexivity. Qed.

End DictionaryExamples.

(** ** The text input of the link fetcher *)

Section TypedUrls.

Import PyStr Re Linkdin.

#[local] Abbreviation lines_go cur s :=
  (PyStr.split_go newline 0 cur (PyStr.replace_go "," newline 0 s)).

Lemma lines_go_nil (cur : string) : lines_go cur "" = [cur].
Proof. reflexivity. Qed.

Lemma lines_go_cons (cur : string) (c : ascii) (s : string) :
  lines_go cur (String c s)
  = if comma_or_newline c then cur :: lines_go "" s
    else lines_go (cur ++ String c "") s.
Proof.
  unfold comma_or_newline. cbn [PyStr.replace_go].
  rewrite prefix_String, prefix_nil.
  destruct (ascii_dec "," c) as [<-|Hc].
  - change (String.length "," - 1) with 0.
    change (newline ++ PyStr.replace_go "," newline 0 s)
      with (String (ascii_of_nat 10) (PyStr.replace_go "," newline 0 s)).
    cbn [PyStr.split_go]. unfold newline at 1.
    rewrite prefix_String, prefix_nil.
    destruct (ascii_dec (ascii_of_nat 10) (ascii_of_nat 10)); [|done].
    reflexivity.
  - assert (Ascii.eqb c "," = false) as -> by (apply Ascii.eqb_neq; congruence).
    cbn [PyStr.split_go orb]. unfold newline at 1. rewrite prefix_String, prefix_nil.
    destruct (ascii_dec (ascii_of_nat 10) c) as [<-|Hn].
    + reflexivity.
    + assert (Ascii.eqb c (ascii_of_nat 10) = false) as ->
        by (apply Ascii.eqb_neq; congruence).
      reflexivity.
Qed.

Lemma lines_go_free (cur s : string) :
  free_of comma_or_newline cur ->
  Forall (free_of comma_or_newline) (lines_go cur s).
Proof.
  revert cur. induction s as [|c s IH]; intros cur Hcur.
  - rewrite lines_go_nil. by repeat constructor.
  - rewrite lines_go_cons. destruct (comma_or_newline c) eqn:E.
    + constructor; [done|]. apply IH. constructor.
    + apply IH. apply free_of_app. split; [done|].
      apply free_of_cons. split; [done|constructor].
Qed.

Lemma lstrip_free_of (p : ascii -> bool) (s : string) :
  free_of p s -> free_of p (lstrip s).
Proof.
  induction s as [|c s IH]; [done|]. intros H. simpl.
  destruct (is_space c); [|done]. apply IH. by apply free_of_cons in H as [_ ?].
Qed.

Lemma rstrip_free_of (p : ascii -> bool) (s : string) :
  free_of p s -> free_of p (rstrip s).
Proof.
  induction s as [|c s IH]; [done|]. intros [Hc Hs]%free_of_cons. simpl.
  specialize (IH Hs). destruct (rstrip s) as [|d r].
  - destruct (is_space c); [constructor|].
    apply free_of_cons. split; [done|constructor].
  - apply free_of_cons. split; done.
Qed.

(** X12.  Every URL read from the text input of the link fetcher is not
    empty, has no whitespace at either end ([strip] leaves it unchanged)
    and holds no comma and no line feed; blanks inside a URL are kept. *)
Theorem typed_urls_clean (urls_input : string) :
  Forall (fun url => url <> "" /\ strip url = url /\ free_of comma_or_newline url)
         (typed_urls urls_input).
Proof.
  unfold typed_urls. destruct (decide _); [constructor|].
  apply Forall_fmap, Forall_forall. intros u [Hne Hin]%list_elem_of_filter.
  simpl. split; [done|]. split; [apply strip_strip|].
  unfold strip. apply lstrip_free_of, rstrip_free_of.
  pose proof (lines_go_free "" urls_input) as H. rewrite Forall_forall in H.
  apply H; [constructor|done].
Qed.

Example typed_urls_keeps_blanks :
  typed_urls ("https://a.org/ , my site " ++ newline ++ newline ++ "b.net")
  = ["https://a.org/"; "my site"; "b.net"]
  /\ EmailScraper.normalize_urls
       ("https://a.org/ , my site " ++ newline ++ newline ++ "b.net")
     = ["https://a.org/"; "my"; "site"; "b.net"].
Proof. split; vm_compute; reflexivity. Qed.

(** The text whose only whitespace is the line feed. *)
#[local] Abbreviation only_newlines s :=
  (Forall (fun c => is_space c = true -> c = ascii_of_nat 10)
          (list_ascii_of_string s)).

Lemma separators_agree (c : ascii) :
  (is_space c = true -> c = ascii_of_nat 10) ->
  comma_or_space c = comma_or_newline c.
Proof.
  unfold comma_or_space, comma_or_newline. intros H.
  destruct (Ascii.eqb c ","); [done|]. simpl.
  destruct (is_space c) eqn:E.
  - rewrite (H eq_refl). reflexivity.
  - symmetry. apply Ascii.eqb_neq. intros ->. vm_compute in E. done.
Qed.

Lemma lines_go_runs (s : string) :
  only_newlines s ->
  forall cur,
    filter (fun u => u <> "") (lines_go cur s)
    = filter (fun u => u <> "") (split_runs_go comma_or_space (Some cur) s)
    /\ filter (fun u => u <> "") (lines_go "" s)
       = filter (fun u => u <> "") (split_runs_go comma_or_space None s).
Proof.
  induction s as [|c s IH]; intros H cur.
  - rewrite !lines_go_nil. done.
  - simpl in H. apply Forall_cons in H as [Hc Hs]. specialize (IH Hs).
    rewrite !lines_go_cons. cbn [split_runs_go].
    rewrite (separators_agree c Hc). destruct (comma_or_newline c).
    + destruct (IH "") as [_ IH2]. rewrite !filter_cons, IH2.
      split; [done|]. by destruct (decide ("" <> "")).
    + split; [apply IH|]. apply (IH ("" ++ String c "")).
Qed.

Lemma lines_go_no_space (s : string) :
  only_newlines s ->
  forall cur, free_of is_space cur -> Forall (free_of is_space) (lines_go cur s).
Proof.
  induction s as [|c s IH]; intros H cur Hcur.
  - rewrite lines_go_nil. by repeat constructor.
  - simpl in H. apply Forall_cons in H as [Hc Hs].
    rewrite lines_go_cons. destruct (comma_or_newline c) eqn:E.
    + constructor; [done|]. apply IH; [done|constructor].
    + apply IH; [done|]. apply free_of_app. split; [done|].
      apply free_of_cons. split; [|constructor].
      destruct (is_space c) eqn:Es; [|done].
      rewrite (Hc eq_refl) in E. vm_compute in E. done.
Qed.

Lemma lstrip_empty (s : string) : lstrip s = "" -> all_in is_space s.
Proof.
  unfold all_in. induction s as [|c s IH]; simpl; [constructor|].
  destruct (is_space c) eqn:E; [|done]. intros H. constructor; auto.
Qed.

Lemma rstrip_all_space (s : string) :
  all_in is_space (rstrip s) -> all_in is_space s.
Proof.
  unfold all_in. induction s as [|c s IH]; simpl; [constructor|].
  destruct (rstrip s) as [|d r].
  - destruct (is_space c) eqn:E.
    + intros _. constructor; [done|]. apply IH. constructor.
    + simpl. intros [? _]%Forall_cons. congruence.
  - simpl. intros [? ?]%Forall_cons. constructor; [done|]. by apply IH.
Qed.

Lemma strip_empty (s : string) : strip s = "" -> all_in is_space s.
Proof. intros H. by apply rstrip_all_space, lstrip_empty. Qed.

(** X13.  On a text whose only whitespace is the line feed, the text input
    of the link fetcher and [normalize_urls] of the email scraper read the
    same URLs. *)
Theorem typed_urls_normalize_urls (urls_input : string) :
  only_newlines urls_input ->
  typed_urls urls_input = EmailScraper.normalize_urls urls_input.
Proof.
  intros H. unfold typed_urls. destruct (decide (strip urls_input = "")) as [He|_].
  - symmetry. rewrite normalize_urls_pieces. unfold split_runs.
    apply split_runs_go_empty. split; [done|].
    apply strip_empty in He. unfold all_in in *.
    eapply Forall_impl; [exact He|]. intros c. apply is_space_comma_or_space.
  - rewrite normalize_urls_pieces.
    change (PyStr.split newline (PyStr.replace "," newline urls_input))
      with (lines_go "" urls_input).
    rewrite strip_filter_free by (apply lines_go_no_space; [done|constructor]).
    apply (lines_go_runs _ H "").
Qed.

Lemma typed_urls_normalize_urls_witness :
  typed_urls ("a.com,b.org" ++ newline ++ newline ++ "c.net,")
  = EmailScraper.normalize_urls ("a.com,b.org" ++ newline ++ newline ++ "c.net,")
  /\ typed_urls ("a.com,b.org" ++ newline ++ newline ++ "c.net,")
     = ["a.com"; "b.org"; "c.net"].
Proof.
  split; [|vm_compute; reflexivity].
  apply (typed_urls_normalize_urls ("a.com,b.org" ++ newline ++ newline ++ "c.net,")).
  simpl. repeat constructor; vm_compute; intros; congruence.
Defined.

End TypedUrls.

(** ** The email scraper's [main] and its log *)

Section MainFacts.

Import EmailScraper.

Variable chrome : string -> Browser.
Variable crawl : string -> Result (gset string).
Variable duration : string -> Z.

#[local] Abbreviation app_main :=
  (main chrome crawl duration).

Lemma typed_part (urls_input : string) :
  (if decide (urls_input = "") then [] else normalize_urls urls_input)
  = normalize_urls urls_input.
Proof. destruct (decide _) as [-> |]; [|done]. reflexivity. Qed.

(** X14.  [main] of the email scraper does nothing until the button is
    pressed.  Then it scrapes the first column of the uploaded file
    followed by the URLs typed, in that order and with their duplicates,
    one row per URL; a file that is neither [.csv] nor [.xlsx] stops it
    with ['Unsupported file type!'] even when URLs were typed; and without
    a file it reports that no URL was given exactly when the text holds
    only commas and whitespace. *)
Theorem main_collects (file : option UploadedFile) (urls_input : string)
    (use_selenium : bool) (w : World) :
  app_main file urls_input use_selenium false w = Idle
  /\ (forall f, file = Some f -> ext f <> ".csv" -> ext f <> ".xlsx" ->
        app_main file urls_input use_selenium true w = Error "Unsupported file type!")
  /\ (forall f column,
        file = Some f ->
        (ext f = ".csv" /\ read_csv f = Ok column)
        \/ (ext f = ".xlsx" /\ read_excel f = Ok column) ->
        collect_urls file urls_input
        = Ok (Some (column ++ normalize_urls urls_input)%list))
  /\ (file = None ->
        collect_urls file urls_input = Ok (Some (normalize_urls urls_input))
        /\ (app_main file urls_input use_selenium true w
              = Error "Please provide at least one valid URL."
            <-> Re.all_in Re.comma_or_space urls_input))
  /\ (forall urls, collect_urls file urls_input = Ok (Some urls) -> urls <> [] ->
        exists results,
          app_main file urls_input use_selenium true w = Scraped urls results
          /\ Website <$> results = urls
          /\ length results = length urls).
Proof.
  split; [done|]. split; [|split; [|split]].
  - intros f -> H1 H2. unfold main, collect_urls.
    destruct (decide (ext f = ".csv")); [done|].
    by destruct (decide (ext f = ".xlsx")).
  - intros f column -> H. unfold collect_urls. rewrite typed_part.
    destruct H as [[-> ->]|[He ->]]; [done|].
    destruct (decide (ext f = ".csv")) as [E|_]; [rewrite E in He; done|].
    by destruct (decide (ext f = ".xlsx")).
  - intros ->. unfold main, collect_urls. rewrite typed_part. split; [done|].
    assert (normalize_urls urls_input = [] <-> Re.all_in Re.comma_or_space urls_input)
      as <-.
    { rewrite normalize_urls_pieces. unfold Re.split_runs.
      rewrite split_runs_go_empty. simpl. tauto. }
    destruct (normalize_urls urls_input); split; done.
  - intros urls Hc Hne. unfold main. rewrite Hc.
    destruct urls as [|u l]; [done|].
    eexists. split; [reflexivity|].
    split; [apply scrape_multiple_websites_websites|].
    rewrite <- (scrape_multiple_websites_websites chrome crawl duration
                  (u :: l) use_selenium w) at 2.
    by rewrite length_fmap.
Qed.

End MainFacts.

Section LogFacts.

Import EmailScraper.

Variable chrome : string -> Browser.
Variable crawl : string -> Result (gset string).
Variable duration : string -> Z.

#[local] Abbreviation line_of := (error_line chrome crawl).
#[local] Abbreviation loaded :=
  (fun url : string => exists html_content, chrome url = Loaded html_content).

Lemma scrape_one_log (url : string) (use_selenium : bool) (w : World) :
  exists lines,
    log (scrape_one chrome crawl duration url use_selenium w).2
    = (log w ++ lines)%list
    /\ (forall line, line ∈ lines -> line_of url use_selenium line)
    /\ (lines = [] <-> use_selenium = true /\ loaded url).
Proof.
  unfold scrape_one, scrape_with_hybrid, error_line. destruct use_selenium.
  - unfold scrape_with_selenium, browser_line.
    destruct (chrome url) as [e|e|html]; simpl.
    + exists ["Failed to scrape " ++ url ++ ": " ++ e]. split; [done|]. split.
      * intros line ->%list_elem_of_singleton. exists e. by left.
      * split; [done|]. by intros [_ [? ?]].
    + exists ["Error scraping " ++ url ++ " with Selenium: " ++ e].
      split; [done|]. split.
      * intros line ->%list_elem_of_singleton. exists e. by right.
      * split; [done|]. by intros [_ [? ?]].
    + exists []. rewrite app_nil_r. split; [done|]. split.
      * by intros line ?%elem_of_nil.
      * split; [|done]. intros _. split; [done|]. by exists html.
  - unfold scrapy_line.
    destruct (run_scrapy_for_website_cases crawl url w)
      as [[_ ->]|[(_ & e & He & ->)|(_ & _ & ->)]]; simpl.
    + exists ["Failed to scrape " ++ url ++ ": " ++ ReactorNotRestartable].
      split; [done|]. split.
      * intros line ->%list_elem_of_singleton. right.
        exists ReactorNotRestartable. split; [by left|done].
      * split; [done|]. by intros [? _].
    + exists ["Failed to scrape " ++ url ++ ": " ++ e]. split; [done|]. split.
      * intros line ->%list_elem_of_singleton. right. exists e. split; [by right|done].
      * split; [done|]. by intros [? _].
    + exists [handler_error]. split; [done|]. split.
      * intros line ->%list_elem_of_singleton. by left.
      * split; [done|]. by intros [? _].
Qed.


End LogFacts.

Section LinkMain.

Import Linkdin.

(** X16.  Once at least one URL is given and the button is pressed, [main]
    of the link fetcher shows 'Processing complete!' with one entry per
    URL, also when no page has any outgoing link: the extractor never
    raises, so the dictionary is not empty and 'No outgoing links found.'
    is never shown; with no URL it asks for one, and the typed URLs are
    still gathered when reading the uploaded file raised. *)
Theorem no_links_found_unreachable (urljoin : string -> string -> string)
    (netloc : string -> string) (malformed : string -> string -> bool)
    (anchor_tags_of : string -> Result (list string))
    (urls : list string) (schedule : list nat) :
  schedule ≡ₚ seq 0 (length urls) ->
  NoDup urls ->
  main urljoin netloc malformed anchor_tags_of urls schedule false = Some PleaseUpload
  /\ (urls = [] ->
      main urljoin netloc malformed anchor_tags_of urls schedule true = Some ProvideUrl)
  /\ (urls <> [] ->
      exists results,
        main urljoin netloc malformed anchor_tags_of urls schedule true = Some (Complete results)
        /\ results.*1 = urls)
  /\ main urljoin netloc malformed anchor_tags_of urls schedule true <> Some NoLinksFound
  /\ (forall e urls_input,
        gathered_urls (Some (Raise e)) urls_input = typed_urls urls_input
        /\ gathered_urls None urls_input = typed_urls urls_input).
Proof.
  intros Hp Hnd.
  assert (urls <> [] ->
          exists results,
            main urljoin netloc malformed anchor_tags_of urls schedule true
            = Some (Complete results) /\ results.*1 = urls) as H.
  { intros Hne. unfold main.
    rewrite (process_urls_concurrently_assemble _ _ _ Hp).
    assert ((assemble
               (fun url => Ok (extract_links_from_page urljoin netloc malformed anchor_tags_of url))
               urls []).*1 = urls) as Hk.
    { rewrite assemble_keys; [done|done|]. intros url _. by eexists. }
    destruct urls as [|u l]; [done|].
    destruct (assemble _ (u :: l) []) as [|kv d] eqn:E; [done|].
    by exists (kv :: d). }
  split; [done|]. split; [by intros ->|]. split; [done|]. split; [|done].
  destruct urls as [|u l]; [done|].
  destruct H as (results & -> & _); done.
Qed.

Lemma no_links_found_unreachable_witness :
  exists results,
    main Sample.urljoin Sample.netloc Sample.malformed Sample.anchor_tags_of
      [Sample.seed; "https://unreachable.example/"] [1; 0] true
    = Some (Complete results)
    /\ results.*1 = [Sample.seed; "https://unreachable.example/"]
    /\ export_rows results = [].
Proof.
  destruct (no_links_found_unreachable Sample.urljoin Sample.netloc Sample.malformed
              Sample.anchor_tags_of
              [Sample.seed; "https://unreachable.example/"] [1; 0])
    as (_ & _ & H & _).
  - apply (bool_decide_unpack _). vm_compute. exact I.
  - apply (bool_decide_unpack _). vm_compute. exact I.
  - destruct (H ltac:(discriminate)) as (results & Hm & Hk).
    exists results. split; [exact Hm|]. split; [exact Hk|].
    assert (main Sample.urljoin Sample.netloc Sample.malformed Sample.anchor_tags_of
              [Sample.seed; "https://unreachable.example/"] [1; 0] true
            = Some (Complete [(Sample.seed, []); ("https://unreachable.example/", [])]))
      as Hc by (vm_compute; reflexivity).
    rewrite Hc in Hm. injection Hm as <-. reflexivity.
Defined.

End LinkMain.
